(** * Shader stage specialization keys (shader_recompiler/specialization.h)

    A shallow embedding of [Shader::StageSpecialization]: the per-resource
    specialization records, the constructor that fills them from the
    descriptor provider, the validity bitset over the shared binding index and
    the gated [operator==] used by the permutation cache.

    Conventions.
    - Unsigned machine integers ([u16], [u32]) are [N]; every store into a
      narrower field and every increment writes its wrap-around out.
    - [std::bitset<64>] is an [N] read with [N.testbit]; [set] past the
      capacity throws [std::out_of_range] ([None]), [operator[]] past the
      capacity is undefined behaviour.
    - [boost::container::small_vector] is [list]; [v[i]] past the end is
      undefined behaviour.  Loop indices are [nat]: containers hold fewer
      than [2^32] elements.
    - Types and functions declared in headers outside this translation unit
      ([AmdGpu], [Info], [RuntimeInfo], [Backend::Bindings], the fetch-shader
      parser) are the fields of three interface classes. *)

From Stdlib Require Import NArith Lia.
From stdpp Require Import base decidable option list numbers.

Local Open Scope N_scope.

(** ** External collaborators *)

(** Modelled from the spec: the hardware descriptor records ("sharps") and
    number formats of the AmdGpu headers, which are not part of this
    translation unit.  The defaulted comparisons of the value types are
    decidable equality ("every declared field must match"); [inhabitant] is
    the value-initialised [T{}]; [*_valid] is the sharp's [operator bool],
    tested by [if (!sharp)]. *)
Class AmdGpu := {
  NumberFormat : Type;
  NumberClass : Type;
  NumberConversion : Type;
  CompMapping : Type;
  ImageType : Type;
  NumberClass_eq_dec :: EqDecision NumberClass;
  NumberConversion_eq_dec :: EqDecision NumberConversion;
  CompMapping_eq_dec :: EqDecision CompMapping;
  ImageType_eq_dec :: EqDecision ImageType;
  NumberClass_inhabited :: Inhabited NumberClass;
  NumberConversion_inhabited :: Inhabited NumberConversion;
  CompMapping_inhabited :: Inhabited CompMapping;
  Color2D : ImageType;
  GetNumberClass : NumberFormat -> NumberClass;
  IsInteger : NumberFormat -> bool;
  Buffer : Type;
  Buffer_valid : Buffer -> bool;
  Buffer_GetStride : Buffer -> N;
  Buffer_GetSize : Buffer -> N;
  Buffer_GetNumberFmt : Buffer -> NumberFormat;
  Buffer_DstSelect : Buffer -> CompMapping;
  Buffer_GetNumberConversion : Buffer -> NumberConversion;
  Image : Type;
  Image_valid : Image -> bool;
  Image_GetBoundType : Image -> ImageType;
  Image_GetNumberFmt : Image -> NumberFormat;
  Image_DstSelect : Image -> CompMapping;
  Image_GetNumberConversion : Image -> NumberConversion;
  Image_width : Image -> N;
  Image_height : Image -> N;
  Sampler : Type;
  Sampler_valid : Sampler -> bool;
  Sampler_force_unnormalized : Sampler -> bool;
}.

(** Modelled from the spec: the descriptor provider [Shader::Info], its
    resource descriptors and the fetch-shader parser, declared in [info.h]
    and [frontend/fetch_shader.h], which are not part of this translation
    unit; only the members the constructor and the comparator read are
    listed. *)
Class ShaderInfo `{AmdGpu} := {
  Stage : Type;
  Stage_eq_dec :: EqDecision Stage;
  Vertex : Stage;
  LogicalStage : Type;
  LogicalStage_eq_dec :: EqDecision LogicalStage;
  TessellationControl : LogicalStage;
  TessellationEval : LogicalStage;
  Info : Type;
  BufferResource : Type;
  TextureBufferResource : Type;
  ImageResource : Type;
  FMaskResource : Type;
  SamplerResource : Type;
  Info_stage : Info -> Stage;
  Info_l_stage : Info -> LogicalStage;
  Info_has_readconst : Info -> bool;
  Info_buffers : Info -> list BufferResource;
  Info_texture_buffers : Info -> list TextureBufferResource;
  Info_images : Info -> list ImageResource;
  Info_fmasks : Info -> list FMaskResource;
  Info_samplers : Info -> list SamplerResource;
  BufferResource_GetSharp : BufferResource -> Info -> Buffer;
  BufferResource_IsStorage : BufferResource -> Buffer -> bool;
  TextureBufferResource_GetSharp : TextureBufferResource -> Info -> Buffer;
  ImageResource_GetSharp : ImageResource -> Info -> Image;
  ImageResource_IsStorage : ImageResource -> Image -> bool;
  FMaskResource_GetSharp : FMaskResource -> Info -> Image;
  SamplerResource_GetSharp : SamplerResource -> Info -> Sampler;
  TessellationDataConstantBuffer : Type;
  ReadTessConstantBuffer : Info -> TessellationDataConstantBuffer;
  VertexAttribute : Type;
  VertexAttribute_GetSharp : VertexAttribute -> Info -> Buffer;
  FetchShaderData : Type;
  FetchShaderData_eq_dec :: EqDecision FetchShaderData;
  FetchShaderData_attributes : FetchShaderData -> list VertexAttribute;
  ParseFetchShader : Info -> option FetchShaderData;
}.

(** Modelled from the spec: the runtime configuration [RuntimeInfo], the
    bind offsets [Backend::Bindings] and the capability [Profile], declared
    outside this translation unit; "start bind offsets must be identical" and
    "runtime_info must be value-equal" are decidable equality. *)
Class Runtime `{ShaderInfo} := {
  RuntimeInfo : Type;
  RuntimeInfo_eq_dec :: EqDecision RuntimeInfo;
  hs_info_InitFromTessConstants :
    RuntimeInfo -> TessellationDataConstantBuffer -> RuntimeInfo;
  vs_info_InitFromTessConstants :
    RuntimeInfo -> TessellationDataConstantBuffer -> RuntimeInfo;
  Bindings : Type;
  Bindings_eq_dec :: EqDecision Bindings;
  Profile : Type;
  support_legacy_vertex_attributes : Profile -> bool;
}.

(** ** Machine integers and the validity bitset *)

Definition u32_max : N := 2 ^ 32.

(** [binding++] on a [u32]. *)
Definition incr (binding : N) : N := (binding + 1) mod u32_max.

Definition MaxStageResources : N := 64.

(** [bitset.set(pos)]: throws [std::out_of_range] when [pos] is not below the
    capacity. *)
Definition bitset_set (bits pos : N) : option N :=
  if decide (pos < MaxStageResources) then Some (N.setbit bits pos) else None.

(** [bitset[pos]]: undefined behaviour when [pos] is not below the
    capacity. *)
Definition bitset_test (bits pos : N) : option bool :=
  if decide (pos < MaxStageResources) then Some (N.testbit bits pos) else None.

(** ** Control flow of a function body that returns [bool] *)

(** [Next a]: execution falls through with state [a]; [Return b]: the
    function returned [b]; [Undefined]: an out-of-range access was made. *)
Inductive Flow (A : Type) : Type :=
  | Next (a : A)
  | Return (b : bool)
  | Undefined.
Arguments Next {A} a.
Arguments Return {A} b.
Arguments Undefined {A}.

Definition Flow_bind {A B} (m : Flow A) (f : A -> Flow B) : Flow B :=
  match m with
  | Next a => f a
  | Return b => Return b
  | Undefined => Undefined
  end.

Notation "x <- m ;; k" := (Flow_bind m (fun x => k))
  (at level 100, m at next level, right associativity).

(** [if (c) return false;] *)
Definition return_false_if (c : bool) : Flow unit :=
  if c then Return false else Next tt.

Section Model.
Context `{Runtime}.

(** ** Per-resource specialization records *)

Record VsAttribSpecialization := mkVsAttribSpecialization {
  vs_num_class : NumberClass;
}.

(** [stride] is a 14-bit and [is_storage] a 1-bit field of a [u16]. *)
Record BufferSpecialization := mkBufferSpecialization {
  buf_stride : N;
  buf_is_storage : bool;
  buf_size : N;
}.

Record TextureBufferSpecialization := mkTextureBufferSpecialization {
  tb_is_integer : bool;
  tb_dst_select : CompMapping;
  tb_num_conversion : NumberConversion;
}.

Record ImageSpecialization := mkImageSpecialization {
  img_type : ImageType;
  img_is_integer : bool;
  img_is_storage : bool;
  img_dst_select : CompMapping;
  img_num_conversion : NumberConversion;
}.

Record FMaskSpecialization := mkFMaskSpecialization {
  fm_width : N;
  fm_height : N;
}.

Record SamplerSpecialization := mkSamplerSpecialization {
  smp_force_unnormalized : bool;
}.

(** *** Equality operators *)

(** The defaulted comparisons test the members in declaration order. *)
Definition VsAttribSpecialization_eq (a b : VsAttribSpecialization) : bool :=
  bool_decide (vs_num_class a = vs_num_class b).

(** [BufferSpecialization::operator==]; [a] is [*this].  The 1-bit field
    [other.is_storage] is promoted to an integer for [size >= ...]. *)
Definition BufferSpecialization_eq (a other : BufferSpecialization) : bool :=
  (buf_stride a =? buf_stride other) &&
  eqb (buf_is_storage a) (buf_is_storage other) &&
  ((N.b2n (buf_is_storage other) <=? buf_size a) || buf_is_storage a).

Definition TextureBufferSpecialization_eq
    (a b : TextureBufferSpecialization) : bool :=
  eqb (tb_is_integer a) (tb_is_integer b) &&
  bool_decide (tb_dst_select a = tb_dst_select b) &&
  bool_decide (tb_num_conversion a = tb_num_conversion b).

Definition ImageSpecialization_eq (a b : ImageSpecialization) : bool :=
  bool_decide (img_type a = img_type b) &&
  eqb (img_is_integer a) (img_is_integer b) &&
  eqb (img_is_storage a) (img_is_storage b) &&
  bool_decide (img_dst_select a = img_dst_select b) &&
  bool_decide (img_num_conversion a = img_num_conversion b).

Definition FMaskSpecialization_eq (a b : FMaskSpecialization) : bool :=
  (fm_width a =? fm_width b) && (fm_height a =? fm_height b).

Definition SamplerSpecialization_eq (a b : SamplerSpecialization) : bool :=
  eqb (smp_force_unnormalized a) (smp_force_unnormalized b).

(** *** Value-initialised records, as [emplace_back()] creates them *)

Definition VsAttribSpecialization_default : VsAttribSpecialization :=
  {| vs_num_class := inhabitant |}.

Definition BufferSpecialization_default : BufferSpecialization :=
  {| buf_stride := 0; buf_is_storage := false; buf_size := 0 |}.

Definition TextureBufferSpecialization_default : TextureBufferSpecialization :=
  {| tb_is_integer := false; tb_dst_select := inhabitant;
     tb_num_conversion := inhabitant |}.

Definition ImageSpecialization_default : ImageSpecialization :=
  {| img_type := Color2D; img_is_integer := false; img_is_storage := false;
     img_dst_select := inhabitant; img_num_conversion := inhabitant |}.

Definition FMaskSpecialization_default : FMaskSpecialization :=
  {| fm_width := 0; fm_height := 0 |}.

Definition SamplerSpecialization_default : SamplerSpecialization :=
  {| smp_force_unnormalized := false |}.

(** ** The specialization key *)

(** [info] is a pointer to the provider in the source; the provider is not
    mutated while a key refers to it, so the key holds its value. *)
Record StageSpecialization := mkStageSpecialization {
  info : Info;
  runtime_info : RuntimeInfo;
  fetch_shader_data : option FetchShaderData;
  vs_attribs : list VsAttribSpecialization;
  bitset : N;
  buffers : list BufferSpecialization;
  tex_buffers : list TextureBufferSpecialization;
  images : list ImageSpecialization;
  fmasks : list FMaskSpecialization;
  samplers : list SamplerSpecialization;
  start : Bindings;
}.

(** *** The fill functions (the lambdas handed to [ForEachSharp]) *)

Definition fill_vs_attrib (spec : VsAttribSpecialization)
    (desc : VertexAttribute) (sharp : Buffer) : VsAttribSpecialization :=
  {| vs_num_class := GetNumberClass (Buffer_GetNumberFmt sharp) |}.

Definition fill_buffer (spec : BufferSpecialization)
    (desc : BufferResource) (sharp : Buffer) : BufferSpecialization :=
  let stride := Buffer_GetStride sharp mod 2 ^ 14 in
  let is_storage := BufferResource_IsStorage desc sharp in
  let size :=
    if negb is_storage then Buffer_GetSize sharp mod u32_max
    else buf_size spec in
  {| buf_stride := stride; buf_is_storage := is_storage; buf_size := size |}.

Definition fill_tex_buffer (spec : TextureBufferSpecialization)
    (desc : TextureBufferResource) (sharp : Buffer)
    : TextureBufferSpecialization :=
  {| tb_is_integer := IsInteger (Buffer_GetNumberFmt sharp);
     tb_dst_select := Buffer_DstSelect sharp;
     tb_num_conversion := Buffer_GetNumberConversion sharp |}.

Definition fill_image (spec : ImageSpecialization)
    (desc : ImageResource) (sharp : Image) : ImageSpecialization :=
  let is_storage := ImageResource_IsStorage desc sharp in
  {| img_type := Image_GetBoundType sharp;
     img_is_integer := IsInteger (Image_GetNumberFmt sharp);
     img_is_storage := is_storage;
     img_dst_select :=
       if is_storage then Image_DstSelect sharp else img_dst_select spec;
     img_num_conversion := Image_GetNumberConversion sharp |}.

Definition fill_fmask (spec : FMaskSpecialization)
    (desc : FMaskResource) (sharp : Image) : FMaskSpecialization :=
  {| fm_width := Image_width sharp mod u32_max;
     fm_height := Image_height sharp mod u32_max |}.

Definition fill_sampler (spec : SamplerSpecialization)
    (desc : SamplerResource) (sharp : Sampler) : SamplerSpecialization :=
  {| smp_force_unnormalized := Sampler_force_unnormalized sharp |}.

(** *** [ForEachSharp], both overloads *)

Section ForEachSharp.
Context {Desc Sharp Spec : Type}.
Variable info_ : Info.
Variable GetSharp : Desc -> Info -> Sharp.
Variable valid : Sharp -> bool.
Variable value_init : Spec.
Variable func : Spec -> Desc -> Sharp -> Spec.

(** Whether a descriptor resolves to a valid sharp, and the entry its
    iteration leaves in the list. *)
Definition resolved (desc : Desc) : bool := valid (GetSharp desc info_).

Definition entry_of (desc : Desc) : Spec :=
  let sharp := GetSharp desc info_ in
  if negb (valid sharp) then value_init else func value_init desc sharp.

(** [ForEachSharp(spec_list, desc_list, func)]: one entry per descriptor,
    filled when the sharp is valid. *)
Fixpoint ForEachSharp (spec_list : list Spec) (desc_list : list Desc)
    : list Spec :=
  match desc_list with
  | [] => spec_list
  | desc :: rest =>
      let spec := value_init in
      let sharp := GetSharp desc info_ in
      if negb (valid sharp) then ForEachSharp (spec_list ++ [spec]) rest
      else ForEachSharp (spec_list ++ [func spec desc sharp]) rest
  end.

(** [ForEachSharp(binding, spec_list, desc_list, func)]: as above, and one
    binding index per descriptor; the bit of a valid sharp is set.  The state
    is (binding, bitset, spec_list); [None] is the exception of
    [bitset.set]. *)
Fixpoint ForEachSharp_binding (binding bits : N) (spec_list : list Spec)
    (desc_list : list Desc) : option (N * N * list Spec) :=
  match desc_list with
  | [] => Some (binding, bits, spec_list)
  | desc :: rest =>
      let spec := value_init in
      let sharp := GetSharp desc info_ in
      if negb (valid sharp) then
        ForEachSharp_binding (incr binding) bits (spec_list ++ [spec]) rest
      else
        match bitset_set bits binding with
        | None => None
        | Some bits' =>
            ForEachSharp_binding (incr binding) bits'
              (spec_list ++ [func spec desc sharp]) rest
        end
  end.

End ForEachSharp.

(** *** The constructor *)

(** The constructor body, returning the final value of the local [binding]
    next to the object. *)
Definition StageSpecialization_ctor_state (info_ : Info)
    (runtime_info_ : RuntimeInfo) (profile_ : Profile) (start_ : Bindings)
    : option (N * StageSpecialization) :=
  let fetch_shader_data_ := ParseFetchShader info_ in
  let vs_attribs_ :=
    match fetch_shader_data_ with
    | Some data =>
        if bool_decide (Info_stage info_ = Vertex) &&
           negb (support_legacy_vertex_attributes profile_)
        then ForEachSharp info_ VertexAttribute_GetSharp Buffer_valid
               VsAttribSpecialization_default fill_vs_attrib []
               (FetchShaderData_attributes data)
        else []
    | None => []
    end in
  let binding := 0 in
  let binding := if Info_has_readconst info_ then incr binding else binding in
  '(binding, bits, buffers_) ←
    ForEachSharp_binding info_ BufferResource_GetSharp Buffer_valid
      BufferSpecialization_default fill_buffer binding 0 []
      (Info_buffers info_);
  '(binding, bits, tex_buffers_) ←
    ForEachSharp_binding info_ TextureBufferResource_GetSharp Buffer_valid
      TextureBufferSpecialization_default fill_tex_buffer binding bits []
      (Info_texture_buffers info_);
  '(binding, bits, images_) ←
    ForEachSharp_binding info_ ImageResource_GetSharp Image_valid
      ImageSpecialization_default fill_image binding bits []
      (Info_images info_);
  '(binding, bits, fmasks_) ←
    ForEachSharp_binding info_ FMaskResource_GetSharp Image_valid
      FMaskSpecialization_default fill_fmask binding bits []
      (Info_fmasks info_);
  let samplers_ :=
    ForEachSharp info_ SamplerResource_GetSharp Sampler_valid
      SamplerSpecialization_default fill_sampler [] (Info_samplers info_) in
  let runtime_info' :=
    if bool_decide (Info_l_stage info_ = TessellationControl) ||
       bool_decide (Info_l_stage info_ = TessellationEval)
    then
      let tess_constants := ReadTessConstantBuffer info_ in
      if bool_decide (Info_l_stage info_ = TessellationControl)
      then hs_info_InitFromTessConstants runtime_info_ tess_constants
      else vs_info_InitFromTessConstants runtime_info_ tess_constants
    else runtime_info_ in
  Some (binding,
        {| info := info_; runtime_info := runtime_info';
           fetch_shader_data := fetch_shader_data_;
           vs_attribs := vs_attribs_; bitset := bits;
           buffers := buffers_; tex_buffers := tex_buffers_;
           images := images_; fmasks := fmasks_; samplers := samplers_;
           start := start_ |}).

(** [StageSpecialization::StageSpecialization(info_, runtime_info_,
    profile_, start_)]; [None] when the constructor throws. *)
Definition StageSpecialization_ctor (info_ : Info)
    (runtime_info_ : RuntimeInfo) (profile_ : Profile) (start_ : Bindings)
    : option StageSpecialization :=
  snd <$> StageSpecialization_ctor_state info_ runtime_info_ profile_ start_.

(** *** The comparator *)

Section Loops.
Context {Spec : Type}.
Variable eq_op : Spec -> Spec -> bool.

(** [for (i ...; i < mine.size(); i++) if (mine[i] != theirs[i]) return
    false;] entered at index [i], [mine] being the elements from [i] on. *)
Fixpoint compare_each (i : nat) (mine theirs : list Spec) : Flow unit :=
  match mine with
  | [] => Next tt
  | x :: rest =>
      match theirs !! i with
      | None => Undefined
      | Some y =>
          if negb (eq_op x y) then Return false
          else compare_each (S i) rest theirs
      end
  end.

(** [for (...) if (other.bitset[binding++] && mine[i] != theirs[i]) return
    false;] with the short-circuit of [&&]: [theirs[i]] is read only when the
    bit is set. *)
Fixpoint compare_gated (other_bits : N) (i : nat) (mine theirs : list Spec)
    (binding : N) : Flow N :=
  match mine with
  | [] => Next binding
  | x :: rest =>
      match bitset_test other_bits binding with
      | None => Undefined
      | Some false =>
          compare_gated other_bits (S i) rest theirs (incr binding)
      | Some true =>
          match theirs !! i with
          | None => Undefined
          | Some y =>
              if negb (eq_op x y) then Return false
              else compare_gated other_bits (S i) rest theirs (incr binding)
          end
      end
  end.

(** What an ungated loop checks: every pair of entries matches. *)
Definition each_match (i : nat) (mine theirs : list Spec) : Prop :=
  forall (j : nat) (x y : Spec),
    mine !! j = Some x -> theirs !! (i + j)%nat = Some y -> eq_op x y = true.

(** What a gated loop checks: the pairs whose bit is set match. *)
Definition gated_match (bits : N) (i : nat) (mine theirs : list Spec)
    (binding : N) : Prop :=
  forall (j : nat) (x y : Spec),
    mine !! j = Some x -> theirs !! (i + j)%nat = Some y ->
    N.testbit bits (binding + N.of_nat j) = true -> eq_op x y = true.

End Loops.

(** The body of [operator==] up to its last statement, with the final value
    of the local [binding]; [this] is the candidate and [other] the cached
    key. *)
Definition StageSpecialization_eq_state (this other : StageSpecialization)
    : Flow N :=
  _ <- return_false_if (negb (bool_decide (start this = start other))) ;;
  _ <- return_false_if
         (negb (bool_decide (runtime_info this = runtime_info other))) ;;
  _ <- return_false_if
         (negb (bool_decide
                  (fetch_shader_data this = fetch_shader_data other))) ;;
  _ <- compare_each VsAttribSpecialization_eq 0
         (vs_attribs this) (vs_attribs other) ;;
  let binding := 0 in
  _ <- return_false_if
         (negb (eqb (Info_has_readconst (info this))
                    (Info_has_readconst (info other)))) ;;
  let binding :=
    if Info_has_readconst (info this) then incr binding else binding in
  binding <- compare_gated BufferSpecialization_eq (bitset other) 0
               (buffers this) (buffers other) binding ;;
  binding <- compare_gated TextureBufferSpecialization_eq (bitset other) 0
               (tex_buffers this) (tex_buffers other) binding ;;
  binding <- compare_gated ImageSpecialization_eq (bitset other) 0
               (images this) (images other) binding ;;
  binding <- compare_gated FMaskSpecialization_eq (bitset other) 0
               (fmasks this) (fmasks other) binding ;;
  _ <- compare_each SamplerSpecialization_eq 0
         (samplers this) (samplers other) ;;
  Next binding.

(** [StageSpecialization::operator==]; [None] is undefined behaviour. *)
Definition StageSpecialization_eq (this other : StageSpecialization)
    : option bool :=
  match StageSpecialization_eq_state this other with
  | Next _ => Some true
  | Return b => Some b
  | Undefined => None
  end.

(** The spec's names for the two operations. *)
Definition Build := StageSpecialization_ctor.
Definition Equal (candidate cached : StageSpecialization) : option bool :=
  StageSpecialization_eq candidate cached.

End Model.

(** ** Binding positions *)

Section Positions.
Context `{Runtime}.

(** The shared sequential binding index: the implicit read-constant slot (if
    present), then buffers, texture-buffers, images and fmasks, one index per
    descriptor. *)
Definition first_binding (has_readconst : bool) : N := N.b2n has_readconst.

Definition buffer_binding (i_ : Info) (i : nat) : N :=
  first_binding (Info_has_readconst i_) + N.of_nat i.

Definition tex_buffer_binding (i_ : Info) (i : nat) : N :=
  first_binding (Info_has_readconst i_) +
  N.of_nat (length (Info_buffers i_)) + N.of_nat i.

Definition image_binding (i_ : Info) (i : nat) : N :=
  first_binding (Info_has_readconst i_) +
  N.of_nat (length (Info_buffers i_)) +
  N.of_nat (length (Info_texture_buffers i_)) + N.of_nat i.

Definition fmask_binding (i_ : Info) (i : nat) : N :=
  first_binding (Info_has_readconst i_) +
  N.of_nat (length (Info_buffers i_)) +
  N.of_nat (length (Info_texture_buffers i_)) +
  N.of_nat (length (Info_images i_)) + N.of_nat i.

(** The number of slots the provider's descriptors occupy. *)
Definition tracked_slots (i_ : Info) : N :=
  fmask_binding i_ (length (Info_fmasks i_)).

(** The entry the constructor leaves for a descriptor of each category. *)
Definition vs_attrib_entry (i_ : Info) : VertexAttribute -> _ :=
  entry_of i_ VertexAttribute_GetSharp Buffer_valid
    VsAttribSpecialization_default fill_vs_attrib.

Definition buffer_entry (i_ : Info) : BufferResource -> _ :=
  entry_of i_ BufferResource_GetSharp Buffer_valid
    BufferSpecialization_default fill_buffer.

Definition tex_buffer_entry (i_ : Info) : TextureBufferResource -> _ :=
  entry_of i_ TextureBufferResource_GetSharp Buffer_valid
    TextureBufferSpecialization_default fill_tex_buffer.

Definition image_entry (i_ : Info) : ImageResource -> _ :=
  entry_of i_ ImageResource_GetSharp Image_valid
    ImageSpecialization_default fill_image.

Definition fmask_entry (i_ : Info) : FMaskResource -> _ :=
  entry_of i_ FMaskResource_GetSharp Image_valid
    FMaskSpecialization_default fill_fmask.

Definition sampler_entry (i_ : Info) : SamplerResource -> _ :=
  entry_of i_ SamplerResource_GetSharp Sampler_valid
    SamplerSpecialization_default fill_sampler.

(** The bitset records, at each descriptor's binding index, whether the
    descriptor resolved; the read-constant slot and the indices past the last
    descriptor stay clear. *)
Definition bitset_tracks (i_ : Info) (bits : N) : Prop :=
  (forall (i : nat) (d : BufferResource),
     Info_buffers i_ !! i = Some d ->
     N.testbit bits (buffer_binding i_ i)
       = Buffer_valid (BufferResource_GetSharp d i_)) /\
  (forall (i : nat) (d : TextureBufferResource),
     Info_texture_buffers i_ !! i = Some d ->
     N.testbit bits (tex_buffer_binding i_ i)
       = Buffer_valid (TextureBufferResource_GetSharp d i_)) /\
  (forall (i : nat) (d : ImageResource),
     Info_images i_ !! i = Some d ->
     N.testbit bits (image_binding i_ i)
       = Image_valid (ImageResource_GetSharp d i_)) /\
  (forall (i : nat) (d : FMaskResource),
     Info_fmasks i_ !! i = Some d ->
     N.testbit bits (fmask_binding i_ i)
       = Image_valid (FMaskResource_GetSharp d i_)) /\
  (forall p : N,
     p < first_binding (Info_has_readconst i_) \/ tracked_slots i_ <= p ->
     N.testbit bits p = false).

(** The same positions, read off a built key: the comparator counts with the
    candidate's flag and list sizes. *)
Definition buffer_slot (s : StageSpecialization) (i : nat) : N :=
  first_binding (Info_has_readconst (info s)) + N.of_nat i.

Definition tex_buffer_slot (s : StageSpecialization) (i : nat) : N :=
  buffer_slot s (length (buffers s)) + N.of_nat i.

Definition image_slot (s : StageSpecialization) (i : nat) : N :=
  tex_buffer_slot s (length (tex_buffers s)) + N.of_nat i.

Definition fmask_slot (s : StageSpecialization) (i : nat) : N :=
  image_slot s (length (images s)) + N.of_nat i.

Definition slots (s : StageSpecialization) : N :=
  fmask_slot s (length (fmasks s)).

(** Two keys "of identical shape": every per-category sequence has the same
    length in both. *)
Definition same_shape (a b : StageSpecialization) : Prop :=
  length (vs_attribs a) = length (vs_attribs b) /\
  length (buffers a) = length (buffers b) /\
  length (tex_buffers a) = length (tex_buffers b) /\
  length (images a) = length (images b) /\
  length (fmasks a) = length (fmasks b) /\
  length (samplers a) = length (samplers b).

(** Functional updates of one sequence of a key. *)
Definition with_buffers (s : StageSpecialization)
    (l : list BufferSpecialization) : StageSpecialization :=
  {| info := info s; runtime_info := runtime_info s;
     fetch_shader_data := fetch_shader_data s; vs_attribs := vs_attribs s;
     bitset := bitset s; buffers := l; tex_buffers := tex_buffers s;
     images := images s; fmasks := fmasks s; samplers := samplers s;
     start := start s |}.

Definition with_tex_buffers (s : StageSpecialization)
    (l : list TextureBufferSpecialization) : StageSpecialization :=
  {| info := info s; runtime_info := runtime_info s;
     fetch_shader_data := fetch_shader_data s; vs_attribs := vs_attribs s;
     bitset := bitset s; buffers := buffers s; tex_buffers := l;
     images := images s; fmasks := fmasks s; samplers := samplers s;
     start := start s |}.

Definition with_images (s : StageSpecialization)
    (l : list ImageSpecialization) : StageSpecialization :=
  {| info := info s; runtime_info := runtime_info s;
     fetch_shader_data := fetch_shader_data s; vs_attribs := vs_attribs s;
     bitset := bitset s; buffers := buffers s; tex_buffers := tex_buffers s;
     images := l; fmasks := fmasks s; samplers := samplers s;
     start := start s |}.

Definition with_fmasks (s : StageSpecialization)
    (l : list FMaskSpecialization) : StageSpecialization :=
  {| info := info s; runtime_info := runtime_info s;
     fetch_shader_data := fetch_shader_data s; vs_attribs := vs_attribs s;
     bitset := bitset s; buffers := buffers s; tex_buffers := tex_buffers s;
     images := images s; fmasks := l; samplers := samplers s;
     start := start s |}.

Definition with_bitset (s : StageSpecialization) (bits : N)
    : StageSpecialization :=
  {| info := info s; runtime_info := runtime_info s;
     fetch_shader_data := fetch_shader_data s; vs_attribs := vs_attribs s;
     bitset := bits; buffers := buffers s; tex_buffers := tex_buffers s;
     images := images s; fmasks := fmasks s; samplers := samplers s;
     start := start s |}.

(** Entry-by-entry agreement of two sequences under an equality operator. *)
Definition entries_match {Spec : Type} (eq_op : Spec -> Spec -> bool)
    (mine theirs : list Spec) : Prop :=
  forall (j : nat) (x y : Spec),
    mine !! j = Some x -> theirs !! j = Some y -> eq_op x y = true.

(** Agreement at the slots whose bit is set, [pos j] being the binding
    position of entry [j]. *)
Definition slots_match {Spec : Type} (eq_op : Spec -> Spec -> bool)
    (bits : N) (pos : nat -> N) (mine theirs : list Spec) : Prop :=
  forall (j : nat) (x y : Spec),
    mine !! j = Some x -> theirs !! j = Some y ->
    N.testbit bits (pos j) = true -> eq_op x y = true.

(** What the comparator requires of a candidate [this] and a cached key
    [other] of the same shape, in the words of its rules: bind offsets,
    runtime info and fetch-shader data equal, vertex attributes and samplers
    equal entry by entry, the same read-constant flag, and in every tracked
    category the entries whose bit is set in [other] equal. *)
Definition keys_match (this other : StageSpecialization) : Prop :=
  start this = start other /\
  runtime_info this = runtime_info other /\
  fetch_shader_data this = fetch_shader_data other /\
  entries_match VsAttribSpecialization_eq
    (vs_attribs this) (vs_attribs other) /\
  Info_has_readconst (info this) = Info_has_readconst (info other) /\
  slots_match BufferSpecialization_eq (bitset other) (buffer_slot this)
    (buffers this) (buffers other) /\
  slots_match TextureBufferSpecialization_eq (bitset other)
    (tex_buffer_slot this) (tex_buffers this) (tex_buffers other) /\
  slots_match ImageSpecialization_eq (bitset other) (image_slot this)
    (images this) (images other) /\
  slots_match FMaskSpecialization_eq (bitset other) (fmask_slot this)
    (fmasks this) (fmasks other) /\
  entries_match SamplerSpecialization_eq (samplers this) (samplers other).

End Positions.

(** ** A concrete provider, to run the model *)

Inductive DemoStage := DemoFragment | DemoVertex | DemoCompute.
Inductive DemoLogicalStage :=
  DemoLFragment | DemoLVertex | DemoLTessControl | DemoLTessEval.

#[global] Instance DemoStage_eq_dec : EqDecision DemoStage.
Proof. solve_decision. Defined.
#[global] Instance DemoLogicalStage_eq_dec : EqDecision DemoLogicalStage.
Proof. solve_decision. Defined.

Record DemoBuffer := mkDemoBuffer {
  db_valid : bool; db_stride : N; db_size : N;
  db_fmt : N; db_dst : N; db_conv : N;
}.

Record DemoImage := mkDemoImage {
  di_valid : bool; di_type : N; di_fmt : N; di_dst : N; di_conv : N;
  di_width : N; di_height : N;
}.

Record DemoSampler := mkDemoSampler {
  ds_valid : bool; ds_force_unnormalized : bool;
}.

#[global] Instance DemoBuffer_eq_dec : EqDecision DemoBuffer.
Proof. solve_decision. Defined.

(** A descriptor carries the sharp it resolves to; buffer and image
    descriptors also say whether the shader writes the resource. *)
Record DemoInfo := mkDemoInfo {
  d_stage : DemoStage;
  d_l_stage : DemoLogicalStage;
  d_has_readconst : bool;
  d_buffers : list (DemoBuffer * bool);
  d_texture_buffers : list DemoBuffer;
  d_images : list (DemoImage * bool);
  d_fmasks : list DemoImage;
  d_samplers : list DemoSampler;
  d_fetch : option (list DemoBuffer);
  d_tess : N;
}.

#[global] Instance demo_AmdGpu : AmdGpu := {|
  NumberFormat := N; NumberClass := N; NumberConversion := N;
  CompMapping := N; ImageType := N;
  Color2D := 9;
  GetNumberClass := fun f => f mod 3;
  IsInteger := fun f => N.odd f;
  Buffer := DemoBuffer;
  Buffer_valid := db_valid; Buffer_GetStride := db_stride;
  Buffer_GetSize := db_size; Buffer_GetNumberFmt := db_fmt;
  Buffer_DstSelect := db_dst; Buffer_GetNumberConversion := db_conv;
  Image := DemoImage;
  Image_valid := di_valid; Image_GetBoundType := di_type;
  Image_GetNumberFmt := di_fmt; Image_DstSelect := di_dst;
  Image_GetNumberConversion := di_conv;
  Image_width := di_width; Image_height := di_height;
  Sampler := DemoSampler;
  Sampler_valid := ds_valid;
  Sampler_force_unnormalized := ds_force_unnormalized;
|}.

#[global] Instance demo_ShaderInfo : ShaderInfo := {|
  Stage := DemoStage; Vertex := DemoVertex;
  LogicalStage := DemoLogicalStage;
  TessellationControl := DemoLTessControl;
  TessellationEval := DemoLTessEval;
  Info := DemoInfo;
  BufferResource := DemoBuffer * bool;
  TextureBufferResource := DemoBuffer;
  ImageResource := DemoImage * bool;
  FMaskResource := DemoImage;
  SamplerResource := DemoSampler;
  Info_stage := d_stage; Info_l_stage := d_l_stage;
  Info_has_readconst := d_has_readconst;
  Info_buffers := d_buffers; Info_texture_buffers := d_texture_buffers;
  Info_images := d_images; Info_fmasks := d_fmasks;
  Info_samplers := d_samplers;
  BufferResource_GetSharp := fun d _ => fst d;
  BufferResource_IsStorage := fun d _ => snd d;
  TextureBufferResource_GetSharp := fun d _ => d;
  ImageResource_GetSharp := fun d _ => fst d;
  ImageResource_IsStorage := fun d _ => snd d;
  FMaskResource_GetSharp := fun d _ => d;
  SamplerResource_GetSharp := fun d _ => d;
  TessellationDataConstantBuffer := N;
  ReadTessConstantBuffer := d_tess;
  VertexAttribute := DemoBuffer;
  VertexAttribute_GetSharp := fun d _ => d;
  FetchShaderData := list DemoBuffer;
  FetchShaderData_attributes := fun l => l;
  ParseFetchShader := d_fetch;
|}.

#[global] Instance demo_Runtime : Runtime := {|
  RuntimeInfo := N;
  hs_info_InitFromTessConstants := fun r t => r + 2 * t;
  vs_info_InitFromTessConstants := fun r t => r + 2 * t + 1;
  Bindings := N;
  Profile := bool;
  support_legacy_vertex_attributes := fun p => p;
|}.

(** Sample sharps, descriptors and providers. *)
Definition demo_buffer (valid : bool) (stride size : N) (storage : bool)
    : DemoBuffer * bool :=
  (mkDemoBuffer valid stride size 0 0 0, storage).

Definition demo_image (valid : bool) (dst : N) (storage : bool)
    : DemoImage * bool :=
  (mkDemoImage valid 9 0 dst 0 4 4, storage).

Definition demo_provider (has_readconst : bool)
    (bufs : list (DemoBuffer * bool)) (imgs : list (DemoImage * bool))
    (smps : list DemoSampler) : DemoInfo :=
  mkDemoInfo DemoFragment DemoLFragment has_readconst bufs [] imgs [] smps
    None 0.

(** A vertex stage with a fetch shader, a read-constant slot and resources of
    every category; its second buffer does not resolve. *)
Definition demo_vertex_info : DemoInfo :=
  mkDemoInfo DemoVertex DemoLVertex true
    [demo_buffer true 16 1024 false; demo_buffer false 0 0 false;
     demo_buffer true 4 77 true]
    [mkDemoBuffer true 0 0 5 2 1]
    [demo_image true 5 false; demo_image true 6 true]
    [mkDemoImage false 0 0 0 0 0 0]
    [mkDemoSampler true true]
    (Some [mkDemoBuffer true 0 0 7 0 0]) 3.

Definition demo_no_key : StageSpecialization :=
  {| info := demo_provider false [] [] []; runtime_info := 0;
     fetch_shader_data := None; vs_attribs := []; bitset := 0;
     buffers := []; tex_buffers := []; images := []; fmasks := [];
     samplers := []; start := 0 |}.

(** The key built from a provider with runtime info 0, a profile without
    legacy vertex attributes and bind offsets 0. *)
Definition demo_key (i : DemoInfo) : StageSpecialization :=
  default demo_no_key (Build i 0 false 0).

(** The key of the sample vertex stage under a profile that supports legacy
    vertex attributes. *)
Definition demo_legacy_key : StageSpecialization :=
  default demo_no_key (Build demo_vertex_info 0 true 0).

(** More sample keys and providers. *)
Definition demo_key_start (i : DemoInfo) (s : N) : StageSpecialization :=
  default demo_no_key (Build i 0 false s).

Definition demo_buffer_provider (valid : bool) (stride : N) : DemoInfo :=
  demo_provider false [demo_buffer valid stride 1024 false] [] [].

(** One resolved buffer behind the read-constant slot. *)
Definition demo_readconst_provider (stride : N) : DemoInfo :=
  demo_provider true [demo_buffer true stride 1024 false] [] [].

(** Sixty-five resolved buffers: one more than the bitset holds. *)
Definition demo_crowded_info : DemoInfo :=
  demo_provider false (replicate 65 (demo_buffer true 4 4 false)) [] [].

Section MoreUpdates.
Context `{Runtime}.

(** Functional update of the vertex-attribute sequence of a key. *)
Definition with_vs_attribs (s : StageSpecialization)
    (l : list VsAttribSpecialization) : StageSpecialization :=
  {| info := info s; runtime_info := runtime_info s;
     fetch_shader_data := fetch_shader_data s; vs_attribs := l;
     bitset := bitset s; buffers := buffers s; tex_buffers := tex_buffers s;
     images := images s; fmasks := fmasks s; samplers := samplers s;
     start := start s |}.

End MoreUpdates.

(** ** Input::GetAxis (the controller header) *)

Section Controller.
Local Open Scope Z_scope.

Definition INT_MIN : Z := - 2 ^ 31.
Definition INT_MAX : Z := 2 ^ 31 - 1.

(** The result of an [int] operation: signed overflow is undefined
    behaviour. *)
Definition int_result (z : Z) : option Z :=
  if decide (INT_MIN <= z <= INT_MAX) then Some z else None.

(** [a / b] on [int]: truncation toward zero; a zero divisor is undefined
    behaviour. *)
Definition int_div (a b : Z) : option Z :=
  if decide (b = 0) then None else int_result (a ÷ b).

(** [Input::GetAxis(min, max, value)]: [value] rescaled from [min..max] to
    [0..255] and clamped. *)
Definition GetAxis (min max value : Z) : option Z :=
  d ← int_result (value - min);
  n ← int_result (255 * d);
  r ← int_result (max - min);
  v ← int_div n r;
  Some (if decide (v < 0) then 0 else if decide (v > 255) then 255 else v).

(** The clamp at the end of [GetAxis], to state what it returns. *)
Definition clamp_axis (v : Z) : Z :=
  if decide (v < 0) then 0 else if decide (v > 255) then 255 else v.

End Controller.

(** * Properties *)

(** ** Machine integers and the bitset *)

Lemma incr_small (b : N) : b < MaxStageResources -> incr b = b + 1.
Proof.
  unfold incr, u32_max, MaxStageResources. intros Hb.
  apply N.mod_small. lia.
Qed.

Lemma incr_no_wrap (b : N) : b + 1 < u32_max -> incr b = b + 1.
Proof. unfold incr. intros Hb. by apply N.mod_small. Qed.

Lemma first_binding_incr (f : bool) :
  (if f then incr 0 else 0) = first_binding f.
Proof. by destruct f. Qed.

Lemma bitset_test_in (bits pos : N) :
  pos < MaxStageResources -> bitset_test bits pos = Some (N.testbit bits pos).
Proof. intros Hp. unfold bitset_test. by rewrite decide_True. Qed.

Lemma bitset_test_out (bits pos : N) :
  MaxStageResources <= pos -> bitset_test bits pos = None.
Proof. intros Hp. unfold bitset_test. rewrite decide_False; [done | lia]. Qed.

Lemma bitset_set_in (bits pos : N) :
  pos < MaxStageResources -> bitset_set bits pos = Some (N.setbit bits pos).
Proof. intros Hp. unfold bitset_set. by rewrite decide_True. Qed.

Lemma bitset_set_Some (bits pos bits' : N) :
  bitset_set bits pos = Some bits' ->
  pos < MaxStageResources /\ bits' = N.setbit bits pos.
Proof.
  unfold bitset_set. case_decide; [| done]. intros [= <-]. done.
Qed.

(** ** The per-record equality operators *)

Lemma eqb_true_iff' (a b : bool) : eqb a b = true <-> a = b.
Proof. destruct a, b; simpl; split; congruence. Qed.

Lemma BufferSpecialization_eq_true (a b : BufferSpecialization) :
  BufferSpecialization_eq a b = true <->
  buf_stride a = buf_stride b /\ buf_is_storage a = buf_is_storage b.
Proof.
  unfold BufferSpecialization_eq.
  rewrite !andb_true_iff, N.eqb_eq, eqb_true_iff', orb_true_iff, N.leb_le.
  split; [tauto |]. intros [Hs Hf]. repeat split; try done.
  destruct (buf_is_storage a); [by right |].
  left. rewrite <- Hf. simpl. lia.
Qed.

Lemma BufferSpecialization_eq_refl (a : BufferSpecialization) :
  BufferSpecialization_eq a a = true.
Proof. by apply BufferSpecialization_eq_true. Qed.

Section RecordEquality.
Context `{Runtime}.

Lemma VsAttribSpecialization_eq_true (a b : VsAttribSpecialization) :
  VsAttribSpecialization_eq a b = true <-> a = b.
Proof.
  unfold VsAttribSpecialization_eq. rewrite bool_decide_eq_true.
  destruct a, b; simpl. split; congruence.
Qed.

Lemma TextureBufferSpecialization_eq_true
    (a b : TextureBufferSpecialization) :
  TextureBufferSpecialization_eq a b = true <-> a = b.
Proof.
  unfold TextureBufferSpecialization_eq.
  rewrite !andb_true_iff, !bool_decide_eq_true, eqb_true_iff'.
  destruct a, b; simpl.
  split; [intros [[-> ->] ->]; done | by intros [= -> -> ->]].
Qed.

Lemma ImageSpecialization_eq_true (a b : ImageSpecialization) :
  ImageSpecialization_eq a b = true <-> a = b.
Proof.
  unfold ImageSpecialization_eq.
  rewrite !andb_true_iff, !bool_decide_eq_true, !eqb_true_iff'.
  destruct a, b; simpl.
  split; [intros [[[[-> ->] ->] ->] ->]; done | by intros [= -> -> -> -> ->]].
Qed.

Lemma FMaskSpecialization_eq_true (a b : FMaskSpecialization) :
  FMaskSpecialization_eq a b = true <-> a = b.
Proof.
  unfold FMaskSpecialization_eq. rewrite andb_true_iff, !N.eqb_eq.
  destruct a, b; simpl. split; [intros [-> ->]; done | by intros [= -> ->]].
Qed.

Lemma SamplerSpecialization_eq_true (a b : SamplerSpecialization) :
  SamplerSpecialization_eq a b = true <-> a = b.
Proof.
  unfold SamplerSpecialization_eq. rewrite eqb_true_iff'.
  destruct a, b; simpl. split; congruence.
Qed.

End RecordEquality.

(** C2. [BufferSpecialization::operator==] holds exactly when the strides
    are equal and the storage flags are equal; replacing the [size] of either
    operand by any value leaves its result unchanged. *)
Theorem BufferSpecialization_eq_ignores_size :
  (forall a b : BufferSpecialization,
     BufferSpecialization_eq a b = true <->
     buf_stride a = buf_stride b /\ buf_is_storage a = buf_is_storage b) /\
  (forall (a b : BufferSpecialization) (sa sb : N),
     BufferSpecialization_eq
       {| buf_stride := buf_stride a; buf_is_storage := buf_is_storage a;
          buf_size := sa |}
       {| buf_stride := buf_stride b; buf_is_storage := buf_is_storage b;
          buf_size := sb |}
     = BufferSpecialization_eq a b).
Proof.
  split; [apply BufferSpecialization_eq_true |].
  intros a b sa sb. apply eq_true_iff_eq.
  by rewrite !BufferSpecialization_eq_true.
Qed.

(** ** The comparison loops *)

Section LoopProperties.
Context {Spec : Type}.
Variable eq_op : Spec -> Spec -> bool.

Lemma compare_each_spec (mine theirs : list Spec) (i : nat) :
  (i + length mine <= length theirs)%nat ->
  (compare_each eq_op i mine theirs = Next tt /\
   each_match eq_op i mine theirs) \/
  (compare_each eq_op i mine theirs = Return false /\
   ~ each_match eq_op i mine theirs).
Proof.
  revert i. induction mine as [| x rest IH]; intros i Hlen.
  - left. split; [done |]. intros j x y Hx. by rewrite lookup_nil in Hx.
  - simpl in *.
    destruct (lookup_lt_is_Some_2 theirs i) as [y Hy]; [lia |].
    rewrite Hy. destruct (eq_op x y) eqn:Hxy; simpl.
    + destruct (IH (S i)) as [[-> Hall] | [-> Hnot]]; [lia | left | right].
      * split; [done |]. intros [| j] x' y' Hx' Hy'; simpl in Hx'.
        -- rewrite Nat.add_0_r in Hy'. congruence.
        -- apply (Hall j x' y' Hx'). rewrite <- Hy'. f_equal. lia.
      * split; [done |]. intros Hall. apply Hnot. intros j x' y' Hx' Hy'.
        apply (Hall (S j) x' y' Hx'). rewrite <- Hy'. f_equal. lia.
    + right. split; [done |]. intros Hall.
      rewrite (Hall 0%nat x y) in Hxy; [done | done |].
      by rewrite Nat.add_0_r.
Qed.

Lemma compare_gated_spec (bits : N) (mine theirs : list Spec) (i : nat)
    (binding : N) :
  (i + length mine <= length theirs)%nat ->
  binding + N.of_nat (length mine) <= MaxStageResources ->
  (compare_gated eq_op bits i mine theirs binding
     = Next (binding + N.of_nat (length mine)) /\
   gated_match eq_op bits i mine theirs binding) \/
  (compare_gated eq_op bits i mine theirs binding = Return false /\
   ~ gated_match eq_op bits i mine theirs binding).
Proof.
  revert i binding. induction mine as [| x rest IH]; intros i binding Hlen Hcap.
  - left. simpl. split; [f_equal; lia |].
    intros j x y Hx. by rewrite lookup_nil in Hx.
  - simpl in *.
    assert (Hb : binding < MaxStageResources) by lia.
    rewrite (bitset_test_in _ _ Hb), (incr_small _ Hb).
    destruct (lookup_lt_is_Some_2 theirs i) as [y Hy]; [lia |].
    assert (Hstep :
      N.testbit bits binding = false \/ eq_op x y = true ->
      (compare_gated eq_op bits (S i) rest theirs (binding + 1)
         = Next (binding + N.pos (Pos.of_succ_nat (length rest))) /\
       gated_match eq_op bits i (x :: rest) theirs binding) \/
      (compare_gated eq_op bits (S i) rest theirs (binding + 1)
         = Return false /\
       ~ gated_match eq_op bits i (x :: rest) theirs binding)).
    { intros Hhead.
      destruct (IH (S i) (binding + 1)) as [[-> Hall] | [-> Hnot]];
        [lia | lia | left | right].
      - split; [f_equal; lia |]. intros [| j] x' y' Hx' Hy' Hbit; simpl in Hx'.
        + rewrite Nat.add_0_r in Hy'. rewrite N.add_0_r in Hbit.
          destruct Hhead; congruence.
        + apply (Hall j x' y' Hx').
          * rewrite <- Hy'. f_equal. lia.
          * rewrite <- Hbit. f_equal. lia.
      - split; [done |]. intros Hall. apply Hnot. intros j x' y' Hx' Hy' Hbit.
        apply (Hall (S j) x' y' Hx').
        + rewrite <- Hy'. f_equal. lia.
        + rewrite <- Hbit. f_equal. lia. }
    destruct (N.testbit bits binding) eqn:Hbit; [| by apply Hstep; left].
    rewrite Hy. destruct (eq_op x y) eqn:Hxy; simpl; [by apply Hstep; right |].
    right. split; [done |]. intros Hall.
    rewrite (Hall 0%nat x y) in Hxy; [done | done | |].
    + by rewrite Nat.add_0_r.
    + by rewrite N.add_0_r.
Qed.

(** A gated loop that falls through has consumed one index per entry. *)
Lemma compare_gated_Next (bits : N) (mine theirs : list Spec) (i : nat)
    (binding b : N) :
  compare_gated eq_op bits i mine theirs binding = Next b ->
  b = binding + N.of_nat (length mine).
Proof.
  revert i binding. induction mine as [| x rest IH]; intros i binding; simpl.
  - intros [= <-]. lia.
  - unfold bitset_test. case_decide as Hb; [| done].
    rewrite (incr_small _ Hb).
    destruct (N.testbit bits binding).
    + destruct (theirs !! i) as [y |]; [| done].
      destruct (eq_op x y); simpl; [| done].
      intros Hn. apply IH in Hn. lia.
    + intros Hn. apply IH in Hn. lia.
Qed.

(** The candidate's entry at a slot whose bit is unset is never read. *)
Lemma compare_gated_insert (bits : N) (mine theirs : list Spec) (i : nat)
    (binding : N) (j : nat) (r : Spec) :
  N.testbit bits (binding + N.of_nat j) = false ->
  compare_gated eq_op bits i (<[j:=r]> mine) theirs binding =
  compare_gated eq_op bits i mine theirs binding.
Proof.
  revert i binding j.
  induction mine as [| x rest IH]; intros i binding j Hbit; [done |].
  destruct j as [| j]; simpl.
  - rewrite N.add_0_r in Hbit.
    unfold bitset_test. case_decide; [| done]. by rewrite Hbit.
  - unfold bitset_test. case_decide as Hb; [| done].
    rewrite (incr_small _ Hb).
    assert (Hbit' : N.testbit bits (binding + 1 + N.of_nat j) = false).
    { rewrite <- Hbit. f_equal. lia. }
    rewrite (IH (S i) (binding + 1) j Hbit'). done.
Qed.

(** Entries of the cached list before the loop's index are not read. *)
Lemma compare_gated_insert_before (bits : N) (mine theirs : list Spec)
    (i : nat) (binding : N) (j : nat) (r : Spec) :
  (j < i)%nat ->
  compare_gated eq_op bits i mine (<[j:=r]> theirs) binding =
  compare_gated eq_op bits i mine theirs binding.
Proof.
  revert i binding.
  induction mine as [| x rest IH]; intros i binding Hj; [done |].
  simpl. rewrite list_lookup_insert_ne by lia.
  rewrite !(IH (S i)) by lia. done.
Qed.

(** Nor is the cached entry at a slot whose bit is unset. *)
Lemma compare_gated_insert_theirs (bits : N) (mine theirs : list Spec)
    (i : nat) (binding : N) (j : nat) (r : Spec) :
  (i <= j)%nat ->
  N.testbit bits (binding + N.of_nat (j - i)) = false ->
  compare_gated eq_op bits i mine (<[j:=r]> theirs) binding =
  compare_gated eq_op bits i mine theirs binding.
Proof.
  revert i binding.
  induction mine as [| x rest IH]; intros i binding Hij Hbit; [done |].
  simpl. unfold bitset_test. case_decide as Hb; [| done].
  rewrite (incr_small _ Hb).
  destruct (decide (i = j)) as [-> | Hne].
  - rewrite Nat.sub_diag, N.add_0_r in Hbit. rewrite Hbit.
    apply compare_gated_insert_before. lia.
  - assert (Hbit' :
      N.testbit bits (binding + 1 + N.of_nat (j - S i)) = false).
    { rewrite <- Hbit. f_equal. lia. }
    rewrite list_lookup_insert_ne by done.
    rewrite (IH (S i) (binding + 1)) by (done || lia). done.
Qed.

End LoopProperties.

(** ** The comparator on keys of the same shape *)

Section Comparator.
Context `{Runtime}.

Ltac unfold_slots :=
  unfold slots, fmask_slot, image_slot, tex_buffer_slot, buffer_slot,
    first_binding in *.

(** On keys of the same shape within the bitset capacity the comparator makes
    no out-of-range access: it falls through exactly when the keys match and
    returns [false] otherwise. *)
Lemma StageSpecialization_eq_state_spec (this other : StageSpecialization) :
  same_shape this other ->
  slots this <= MaxStageResources ->
  (StageSpecialization_eq_state this other = Next (slots this) /\
   keys_match this other) \/
  (StageSpecialization_eq_state this other = Return false /\
   ~ keys_match this other).
Proof.
  intros (Hvs & Hb & Ht & Hi & Hf & Hs) Hcap.
  unfold StageSpecialization_eq_state, keys_match. cbv zeta.
  rewrite first_binding_incr.
  case_bool_decide as Hstart; cbn [negb return_false_if Flow_bind];
    [| right; split; [done | tauto]].
  case_bool_decide as Hrt; cbn [negb return_false_if Flow_bind];
    [| right; split; [done | tauto]].
  case_bool_decide as Hfetch; cbn [negb return_false_if Flow_bind];
    [| right; split; [done | tauto]].
  destruct (compare_each_spec VsAttribSpecialization_eq
              (vs_attribs this) (vs_attribs other) 0) as [[-> Hva] | [-> Hva]];
    [simpl; lia | |];
    change (each_match ?e 0 ?m ?t) with (entries_match e m t) in Hva;
    cbn [Flow_bind]; [| right; split; [done | tauto]].
  destruct (eqb (Info_has_readconst (info this))
                (Info_has_readconst (info other))) eqn:Hrc;
    cbn [negb return_false_if Flow_bind];
    [apply (proj1 (eqb_true_iff' _ _)) in Hrc
    | right; split; [done |]; intros (_ & _ & _ & _ & Hrc' & _);
      apply (proj2 (eqb_true_iff' _ _)) in Hrc'; congruence].
  destruct (compare_gated_spec BufferSpecialization_eq (bitset other)
              (buffers this) (buffers other) 0
              (first_binding (Info_has_readconst (info this))))
    as [[-> Hgb] | [-> Hgb]];
    [simpl; lia | unfold_slots; lia | |];
    change (gated_match ?e ?b 0 ?m ?t _)
      with (slots_match e b (buffer_slot this) m t) in Hgb;
    cbn [Flow_bind]; [| right; split; [done | tauto]].
  destruct (compare_gated_spec TextureBufferSpecialization_eq (bitset other)
              (tex_buffers this) (tex_buffers other) 0
              (buffer_slot this (length (buffers this))))
    as [[Hrun Hgt] | [Hrun Hgt]];
    [simpl; lia | unfold_slots; lia | |];
    unfold buffer_slot in Hrun at 1; rewrite Hrun; clear Hrun;
    change (gated_match ?e ?b 0 ?m ?t _)
      with (slots_match e b (tex_buffer_slot this) m t) in Hgt;
    cbn [Flow_bind]; [| right; split; [done | tauto]].
  destruct (compare_gated_spec ImageSpecialization_eq (bitset other)
              (images this) (images other) 0
              (tex_buffer_slot this (length (tex_buffers this))))
    as [[Hrun Hgi] | [Hrun Hgi]];
    [simpl; lia | unfold_slots; lia | |];
    unfold tex_buffer_slot in Hrun at 1; rewrite Hrun; clear Hrun;
    change (gated_match ?e ?b 0 ?m ?t _)
      with (slots_match e b (image_slot this) m t) in Hgi;
    cbn [Flow_bind]; [| right; split; [done | tauto]].
  destruct (compare_gated_spec FMaskSpecialization_eq (bitset other)
              (fmasks this) (fmasks other) 0
              (image_slot this (length (images this))))
    as [[Hrun Hgf] | [Hrun Hgf]];
    [simpl; lia | unfold_slots; lia | |];
    unfold image_slot in Hrun at 1; rewrite Hrun; clear Hrun;
    change (gated_match ?e ?b 0 ?m ?t _)
      with (slots_match e b (fmask_slot this) m t) in Hgf;
    cbn [Flow_bind]; [| right; split; [done | tauto]].
  destruct (compare_each_spec SamplerSpecialization_eq
              (samplers this) (samplers other) 0) as [[-> Hsm] | [-> Hsm]];
    [simpl; lia | |];
    change (each_match ?e 0 ?m ?t) with (entries_match e m t) in Hsm;
    cbn [Flow_bind]; [| right; split; [done | tauto]].
  left. split; [done | tauto].
Qed.

End Comparator.

(** ** The construction loops *)

Section ForEachSharpProperties.
Context `{Runtime} {Desc Sharp Spec : Type}.
Variable info_ : Info.
Variable GetSharp : Desc -> Info -> Sharp.
Variable valid : Sharp -> bool.
Variable value_init : Spec.
Variable func : Spec -> Desc -> Sharp -> Spec.

Local Abbreviation entry := (entry_of info_ GetSharp valid value_init func).
Local Abbreviation is_resolved := (resolved info_ GetSharp valid).
Local Abbreviation loop := (ForEachSharp info_ GetSharp valid value_init func).
Local Abbreviation loop_binding :=
  (ForEachSharp_binding info_ GetSharp valid value_init func).

Lemma ForEachSharp_spec (desc_list : list Desc) (spec_list : list Spec) :
  loop spec_list desc_list = spec_list ++ map entry desc_list.
Proof.
  revert spec_list. induction desc_list as [| d rest IH]; intros spec_list.
  - simpl. by rewrite app_nil_r.
  - simpl. unfold entry_of at 1.
    destruct (negb (valid (GetSharp d info_)));
      rewrite IH, <- app_assoc; done.
Qed.

(** A run that completes without wrapping the counter: one index per
    descriptor, one entry per descriptor, and the bit of each descriptor's
    index tells whether it resolved; the other bits are untouched. *)
Lemma ForEachSharp_binding_Some (desc_list : list Desc) (binding bits : N)
    (spec_list : list Spec) (b' bits' : N) (specs' : list Spec) :
  loop_binding binding bits spec_list desc_list = Some (b', bits', specs') ->
  binding + N.of_nat (length desc_list) < u32_max ->
  b' = binding + N.of_nat (length desc_list) /\
  specs' = spec_list ++ map entry desc_list /\
  (forall (i : nat) (d : Desc), desc_list !! i = Some d ->
     N.testbit bits' (binding + N.of_nat i) =
     N.testbit bits (binding + N.of_nat i) || is_resolved d) /\
  (forall p : N,
     p < binding \/ binding + N.of_nat (length desc_list) <= p ->
     N.testbit bits' p = N.testbit bits p).
Proof.
  revert binding bits spec_list.
  induction desc_list as [| d rest IH]; intros binding bits spec_list Hrun Hcap.
  - simpl in Hrun. injection Hrun as <- <- <-.
    repeat split.
    + simpl. lia.
    + simpl. by rewrite app_nil_r.
    + intros i d Hd. by rewrite lookup_nil in Hd.
  - simpl in Hrun, Hcap.
    rewrite incr_no_wrap in Hrun by lia.
    assert (Hstep : exists bits1,
      loop_binding (binding + 1) bits1 (spec_list ++ [entry d]) rest
        = Some (b', bits', specs') /\
      N.testbit bits1 binding = N.testbit bits binding || is_resolved d /\
      forall p, p <> binding -> N.testbit bits1 p = N.testbit bits p).
    { unfold entry_of, resolved.
      destruct (valid (GetSharp d info_)) eqn:Hv; simpl in Hrun |- *.
      - destruct (bitset_set bits binding) as [bits1 |] eqn:Hset; [| done].
        apply bitset_set_Some in Hset as [_ ->].
        exists (N.setbit bits binding). split; [done |]. split.
        + by rewrite N.setbit_eq, orb_true_r.
        + intros p Hp. by apply N.setbit_neq.
      - exists bits. split; [done |]. split; [by rewrite orb_false_r | done]. }
    destruct Hstep as (bits1 & Hrest & Hhere & Hother).
    apply IH in Hrest as (-> & -> & Hin & Hout); [| lia].
    repeat split.
    + simpl. lia.
    + by rewrite <- app_assoc.
    + intros [| i] d' Hd'; simpl in Hd'.
      * injection Hd' as <-. rewrite N.add_0_r.
        rewrite Hout by lia. done.
      * replace (binding + N.of_nat (S i)) with (binding + 1 + N.of_nat i)
          by lia.
        rewrite (Hin i d' Hd'). f_equal. apply Hother. lia.
    + intros p Hp. simpl in Hp. rewrite Hout by lia. apply Hother. lia.
Qed.

(** The entries of a completed run do not depend on the counter. *)
Lemma ForEachSharp_binding_entries (desc_list : list Desc) (binding bits : N)
    (spec_list : list Spec) (b' bits' : N) (specs' : list Spec) :
  loop_binding binding bits spec_list desc_list = Some (b', bits', specs') ->
  specs' = spec_list ++ map entry desc_list.
Proof.
  revert binding bits spec_list.
  induction desc_list as [| d rest IH]; intros binding bits spec_list Hrun.
  - simpl in Hrun. injection Hrun as <- <- <-. simpl. by rewrite app_nil_r.
  - simpl in Hrun. simpl. unfold entry_of at 1.
    destruct (negb (valid (GetSharp d info_))).
    + apply IH in Hrun as ->. by rewrite <- app_assoc.
    + destruct (bitset_set bits binding) as [bits1 |]; [| done].
      apply IH in Hrun as ->. by rewrite <- app_assoc.
Qed.

(** Within the capacity every [bitset.set] is in range: the loop completes. *)
Lemma ForEachSharp_binding_total (desc_list : list Desc) (binding bits : N)
    (spec_list : list Spec) :
  binding + N.of_nat (length desc_list) <= MaxStageResources ->
  is_Some (loop_binding binding bits spec_list desc_list).
Proof.
  revert binding bits spec_list.
  induction desc_list as [| d rest IH]; intros binding bits spec_list Hcap.
  - by eexists.
  - simpl in *.
    assert (Hb : binding < MaxStageResources) by lia.
    rewrite (incr_small _ Hb), (bitset_set_in _ _ Hb).
    destruct (negb (valid (GetSharp d info_))); apply IH; lia.
Qed.

(** An out-of-range [bitset.set] is what makes the loop throw: it completes
    exactly when every resolved descriptor sits at an index below the
    capacity. *)
Lemma ForEachSharp_binding_None (desc_list : list Desc) (binding bits : N)
    (spec_list : list Spec) :
  binding + N.of_nat (length desc_list) < u32_max ->
  loop_binding binding bits spec_list desc_list = None ->
  exists (i : nat) (d : Desc),
    desc_list !! i = Some d /\ is_resolved d = true /\
    MaxStageResources <= binding + N.of_nat i.
Proof.
  revert binding bits spec_list.
  induction desc_list as [| d rest IH]; intros binding bits spec_list Hcap Hrun;
    [done |].
  simpl in Hrun, Hcap. rewrite incr_no_wrap in Hrun by lia.
  assert (Hnext : forall bits1 specs1,
    loop_binding (binding + 1) bits1 specs1 rest = None ->
    exists (i : nat) (d0 : Desc),
      (d :: rest) !! i = Some d0 /\ is_resolved d0 = true /\
      MaxStageResources <= binding + N.of_nat i).
  { intros bits1 specs1 Hr. apply IH in Hr as (i & d0 & Hd0 & Hres & Hge);
      [| lia].
    exists (S i), d0. repeat split; [done | done | lia]. }
  destruct (valid (GetSharp d info_)) eqn:Hv; simpl in Hrun; [| by eauto].
  unfold bitset_set in Hrun. case_decide as Hb; [by eauto |].
  exists 0%nat, d. split; [done |]. split; [exact Hv | lia].
Qed.

End ForEachSharpProperties.

(** ** The constructor *)

Section Constructor.
Context `{Runtime}.

Ltac unfold_bindings :=
  unfold tracked_slots, fmask_binding, image_binding, tex_buffer_binding,
    buffer_binding, first_binding in *.

(** What a completed construction returns. *)
Lemma StageSpecialization_ctor_state_Some (info_ : Info) (rt : RuntimeInfo)
    (p : Profile) (s : Bindings) (b : N) (A : StageSpecialization) :
  tracked_slots info_ < u32_max ->
  StageSpecialization_ctor_state info_ rt p s = Some (b, A) ->
  b = tracked_slots info_ /\
  info A = info_ /\ start A = s /\
  fetch_shader_data A = ParseFetchShader info_ /\
  buffers A = map (buffer_entry info_) (Info_buffers info_) /\
  tex_buffers A = map (tex_buffer_entry info_) (Info_texture_buffers info_) /\
  images A = map (image_entry info_) (Info_images info_) /\
  fmasks A = map (fmask_entry info_) (Info_fmasks info_) /\
  samplers A = map (sampler_entry info_) (Info_samplers info_) /\
  bitset_tracks info_ (bitset A).
Proof.
  intros Hcap Hrun. unfold StageSpecialization_ctor_state in Hrun.
  cbv zeta in Hrun. rewrite first_binding_incr in Hrun.
  destruct (ForEachSharp_binding _ BufferResource_GetSharp _ _ _ _ _ _ _)
    as [[[b1 bits1] l1] |] eqn:E1; [| done].
  apply ForEachSharp_binding_Some in E1 as (-> & -> & Hin1 & Hout1);
    [| unfold_bindings; lia].
  cbn [mbind option_bind] in Hrun.
  destruct (ForEachSharp_binding _ TextureBufferResource_GetSharp _ _ _ _ _ _ _)
    as [[[b2 bits2] l2] |] eqn:E2; [| done].
  apply ForEachSharp_binding_Some in E2 as (-> & -> & Hin2 & Hout2);
    [| unfold_bindings; lia].
  cbn [mbind option_bind] in Hrun.
  destruct (ForEachSharp_binding _ ImageResource_GetSharp _ _ _ _ _ _ _)
    as [[[b3 bits3] l3] |] eqn:E3; [| done].
  apply ForEachSharp_binding_Some in E3 as (-> & -> & Hin3 & Hout3);
    [| unfold_bindings; lia].
  cbn [mbind option_bind] in Hrun.
  destruct (ForEachSharp_binding _ FMaskResource_GetSharp _ _ _ _ _ _ _)
    as [[[b4 bits4] l4] |] eqn:E4; [| done].
  apply ForEachSharp_binding_Some in E4 as (-> & -> & Hin4 & Hout4);
    [| unfold_bindings; lia].
  cbn [mbind option_bind] in Hrun.
  injection Hrun as <- <-. cbn [info start fetch_shader_data buffers
    tex_buffers images fmasks samplers bitset].
  rewrite ForEachSharp_spec.
  repeat (split; [done |]).
  unfold bitset_tracks. repeat split.
  - intros i d Hd. pose proof (lookup_lt_Some _ _ _ Hd) as Hi.
    rewrite Hout4, Hout3, Hout2 by (unfold_bindings; lia).
    unfold buffer_binding. rewrite (Hin1 i d Hd). by rewrite N.bits_0.
  - intros i d Hd. pose proof (lookup_lt_Some _ _ _ Hd) as Hi.
    rewrite Hout4, Hout3 by (unfold_bindings; lia).
    unfold tex_buffer_binding. rewrite (Hin2 i d Hd).
    rewrite Hout1 by (unfold_bindings; lia). by rewrite N.bits_0.
  - intros i d Hd. pose proof (lookup_lt_Some _ _ _ Hd) as Hi.
    rewrite Hout4 by (unfold_bindings; lia).
    unfold image_binding. rewrite (Hin3 i d Hd).
    rewrite Hout2, Hout1 by (unfold_bindings; lia). by rewrite N.bits_0.
  - intros i d Hd. pose proof (lookup_lt_Some _ _ _ Hd) as Hi.
    unfold fmask_binding. rewrite (Hin4 i d Hd).
    rewrite Hout3, Hout2, Hout1 by (unfold_bindings; lia).
    by rewrite N.bits_0.
  - intros q Hq.
    rewrite Hout4, Hout3, Hout2, Hout1 by (unfold_bindings; lia).
    apply N.bits_0.
Qed.

(** The entries of a built key, whatever the number of descriptors. *)
Lemma StageSpecialization_ctor_entries (info_ : Info) (rt : RuntimeInfo)
    (p : Profile) (s : Bindings) (A : StageSpecialization) :
  StageSpecialization_ctor info_ rt p s = Some A ->
  info A = info_ /\ start A = s /\
  fetch_shader_data A = ParseFetchShader info_ /\
  vs_attribs A =
    match ParseFetchShader info_ with
    | Some data =>
        if bool_decide (Info_stage info_ = Vertex) &&
           negb (support_legacy_vertex_attributes p)
        then map (vs_attrib_entry info_) (FetchShaderData_attributes data)
        else []
    | None => []
    end /\
  buffers A = map (buffer_entry info_) (Info_buffers info_) /\
  tex_buffers A = map (tex_buffer_entry info_) (Info_texture_buffers info_) /\
  images A = map (image_entry info_) (Info_images info_) /\
  fmasks A = map (fmask_entry info_) (Info_fmasks info_) /\
  samplers A = map (sampler_entry info_) (Info_samplers info_).
Proof.
  unfold StageSpecialization_ctor, StageSpecialization_ctor_state.
  cbv zeta. intros Hrun.
  destruct (ForEachSharp_binding _ BufferResource_GetSharp _ _ _ _ _ _ _)
    as [[[b1 bits1] l1] |] eqn:E1; [| done].
  apply ForEachSharp_binding_entries in E1 as ->.
  cbn [mbind option_bind] in Hrun.
  destruct (ForEachSharp_binding _ TextureBufferResource_GetSharp _ _ _ _ _ _ _)
    as [[[b2 bits2] l2] |] eqn:E2; [| done].
  apply ForEachSharp_binding_entries in E2 as ->.
  cbn [mbind option_bind] in Hrun.
  destruct (ForEachSharp_binding _ ImageResource_GetSharp _ _ _ _ _ _ _)
    as [[[b3 bits3] l3] |] eqn:E3; [| done].
  apply ForEachSharp_binding_entries in E3 as ->.
  cbn [mbind option_bind] in Hrun.
  destruct (ForEachSharp_binding _ FMaskResource_GetSharp _ _ _ _ _ _ _)
    as [[[b4 bits4] l4] |] eqn:E4; [| done].
  apply ForEachSharp_binding_entries in E4 as ->.
  cbn [mbind option_bind fmap option_fmap option_map snd] in Hrun.
  injection Hrun as <-. cbn [info start fetch_shader_data vs_attribs buffers
    tex_buffers images fmasks samplers].
  rewrite !ForEachSharp_spec.
  repeat (split; [done |]). split; [| done].
  destruct (ParseFetchShader info_) as [data |]; [| done].
  destruct (_ && _); [| done]. by rewrite ForEachSharp_spec.
Qed.

(** Within the capacity the constructor completes. *)
Lemma StageSpecialization_ctor_state_total (info_ : Info) (rt : RuntimeInfo)
    (p : Profile) (s : Bindings) :
  tracked_slots info_ <= MaxStageResources ->
  is_Some (StageSpecialization_ctor_state info_ rt p s).
Proof.
  intros Hcap. unfold StageSpecialization_ctor_state.
  cbv zeta. rewrite first_binding_incr.
  destruct (ForEachSharp_binding_total info_ BufferResource_GetSharp
              Buffer_valid BufferSpecialization_default fill_buffer
              (Info_buffers info_) (first_binding (Info_has_readconst info_))
              0 []) as [[[b1 bits1] l1] E1]; [unfold_bindings; lia |].
  rewrite E1.
  apply ForEachSharp_binding_Some in E1 as (-> & _);
    [| unfold u32_max, MaxStageResources in *; unfold_bindings; lia].
  cbn [mbind option_bind].
  destruct (ForEachSharp_binding_total info_ TextureBufferResource_GetSharp
              Buffer_valid TextureBufferSpecialization_default fill_tex_buffer
              (Info_texture_buffers info_)
              (buffer_binding info_ (length (Info_buffers info_)))
              bits1 []) as [[[b2 bits2] l2] E2]; [unfold_bindings; lia |].
  unfold buffer_binding in E2. rewrite E2.
  apply ForEachSharp_binding_Some in E2 as (-> & _);
    [| unfold u32_max, MaxStageResources in *; unfold_bindings; lia].
  cbn [mbind option_bind].
  destruct (ForEachSharp_binding_total info_ ImageResource_GetSharp
              Image_valid ImageSpecialization_default fill_image
              (Info_images info_)
              (tex_buffer_binding info_ (length (Info_texture_buffers info_)))
              bits2 []) as [[[b3 bits3] l3] E3]; [unfold_bindings; lia |].
  unfold tex_buffer_binding in E3. rewrite E3.
  apply ForEachSharp_binding_Some in E3 as (-> & _);
    [| unfold u32_max, MaxStageResources in *; unfold_bindings; lia].
  cbn [mbind option_bind].
  destruct (ForEachSharp_binding_total info_ FMaskResource_GetSharp
              Image_valid FMaskSpecialization_default fill_fmask
              (Info_fmasks info_)
              (image_binding info_ (length (Info_images info_)))
              bits3 []) as [[[b4 bits4] l4] E4]; [unfold_bindings; lia |].
  unfold image_binding in E4. rewrite E4.
  cbn [mbind option_bind]. by eexists.
Qed.

(** A built key has the shape of its provider. *)
Lemma built_slots (info_ : Info) (rt : RuntimeInfo) (p : Profile)
    (s : Bindings) (A : StageSpecialization) :
  StageSpecialization_ctor info_ rt p s = Some A ->
  slots A = tracked_slots info_.
Proof.
  intros HA.
  apply StageSpecialization_ctor_entries in HA
    as (Hi & _ & _ & _ & Hb & Ht & Him & Hf & _).
  unfold slots, fmask_slot, image_slot, tex_buffer_slot, buffer_slot.
  unfold_bindings.
  by rewrite Hi, Hb, Ht, Him, Hf, !length_map.
Qed.

End Constructor.

(** ** Construction: counter, bitset and entries *)

Section ConstructionTheorems.
Context `{Runtime}.

(** C6. A construction that completes leaves the binding counter at the
    number of tracked slots: it started at 0, advanced by one for the
    read-constant slot when the provider declares one, and by one for every
    buffer, texture-buffer, image and fmask descriptor in that order, resolved
    or not.  The bit at a descriptor's binding index is set exactly when its
    sharp is valid, and no other bit is set. *)
Theorem ctor_binding_counter_and_bitset (info_ : Info) (rt : RuntimeInfo)
    (p : Profile) (s : Bindings) (b : N) (A : StageSpecialization) :
  tracked_slots info_ < u32_max ->
  StageSpecialization_ctor_state info_ rt p s = Some (b, A) ->
  b = N.b2n (Info_has_readconst info_) +
      N.of_nat (length (Info_buffers info_)) +
      N.of_nat (length (Info_texture_buffers info_)) +
      N.of_nat (length (Info_images info_)) +
      N.of_nat (length (Info_fmasks info_)) /\
  bitset_tracks info_ (bitset A).
Proof.
  intros Hcap Hrun.
  apply StageSpecialization_ctor_state_Some in Hrun
    as (-> & _ & _ & _ & _ & _ & _ & _ & _ & Hbits); [| done].
  split; [| done]. reflexivity.
Qed.

(** C9. When the tracked slots fit the bitset capacity of 64, no
    [bitset.set] of the construction is out of range: the constructor returns
    a key, and every bit set in it lies below the capacity. *)
Theorem ctor_total_within_capacity (info_ : Info) (rt : RuntimeInfo)
    (p : Profile) (s : Bindings) :
  tracked_slots info_ <= MaxStageResources ->
  exists A : StageSpecialization,
    StageSpecialization_ctor info_ rt p s = Some A /\
    forall q : N, N.testbit (bitset A) q = true -> q < MaxStageResources.
Proof.
  intros Hcap.
  destruct (StageSpecialization_ctor_state_total info_ rt p s Hcap)
    as [[b A] Hrun].
  exists A. split.
  - unfold StageSpecialization_ctor. by rewrite Hrun.
  - apply StageSpecialization_ctor_state_Some in Hrun
      as (_ & _ & _ & _ & _ & _ & _ & _ & _ & (_ & _ & _ & _ & Hclear)).
    + intros q Hq. destruct (decide (q < MaxStageResources)) as [| Hge];
        [done |].
      rewrite Hclear in Hq; [done |]. right. lia.
    + unfold u32_max, MaxStageResources in *. lia.
Qed.

(** C10. The entry of a buffer descriptor whose sharp is valid keeps the
    default [size] 0 when the descriptor is bound as storage, and takes the
    sharp's size only when it is not. *)
Theorem storage_buffer_size_stays_default (info_ : Info) (rt : RuntimeInfo)
    (p : Profile) (s : Bindings) (A : StageSpecialization)
    (i : nat) (desc : BufferResource) :
  StageSpecialization_ctor info_ rt p s = Some A ->
  Info_buffers info_ !! i = Some desc ->
  Buffer_valid (BufferResource_GetSharp desc info_) = true ->
  exists spec : BufferSpecialization,
    buffers A !! i = Some spec /\
    buf_is_storage spec =
      BufferResource_IsStorage desc (BufferResource_GetSharp desc info_) /\
    (buf_is_storage spec = true -> buf_size spec = 0) /\
    (buf_is_storage spec = false ->
     buf_size spec =
       Buffer_GetSize (BufferResource_GetSharp desc info_) mod u32_max).
Proof.
  intros HA Hdesc Hvalid.
  apply StageSpecialization_ctor_entries in HA
    as (_ & _ & _ & _ & Hb & _).
  exists (buffer_entry info_ desc). split.
  - by rewrite Hb, list_lookup_fmap, Hdesc.
  - unfold buffer_entry, entry_of. rewrite Hvalid. simpl.
    split; [done |].
    destruct (BufferResource_IsStorage desc _); simpl; split; done.
Qed.

(** C3, as the constructor has it.  [fetch_shader_data] is the parser's
    result for the provider whatever the stage and the profile; the stage and
    the profile gate only [vs_attribs], which get one entry per parsed
    attribute when the stage is vertex, the parser found a fetch shader and
    the profile does not support legacy vertex attributes, and stay empty
    otherwise. *)
Theorem fetch_shader_data_always_parsed (info_ : Info) (rt : RuntimeInfo)
    (p : Profile) (s : Bindings) (A : StageSpecialization) :
  StageSpecialization_ctor info_ rt p s = Some A ->
  fetch_shader_data A = ParseFetchShader info_ /\
  (Info_stage info_ = Vertex ->
   support_legacy_vertex_attributes p = false ->
   forall data, ParseFetchShader info_ = Some data ->
   vs_attribs A =
     map (vs_attrib_entry info_) (FetchShaderData_attributes data)) /\
  (Info_stage info_ <> Vertex \/
   support_legacy_vertex_attributes p = true \/
   ParseFetchShader info_ = None ->
   vs_attribs A = []).
Proof.
  intros HA.
  apply StageSpecialization_ctor_entries in HA
    as (_ & _ & Hf & Hvs & _).
  split; [done |]. rewrite Hvs. split.
  - intros Hst Hleg data ->. by rewrite bool_decide_eq_true_2, Hleg.
  - intros Hcase. destruct (ParseFetchShader info_) as [data |]; [| done].
    destruct Hcase as [Hst | [Hleg | Hnone]]; [| | done].
    + by rewrite bool_decide_eq_false_2.
    + rewrite Hleg. simpl. by rewrite andb_false_r.
Qed.

End ConstructionTheorems.

(** ** The comparator *)

Lemma Flow_bind_ext_Next {A B : Type} (m : Flow A) (f g : A -> Flow B) :
  (forall a, m = Next a -> f a = g a) -> Flow_bind m f = Flow_bind m g.
Proof. intros Hfg. destruct m; simpl; auto. Qed.

Lemma Flow_bind_Next_inv {A B : Type} (m : Flow A) (f : A -> Flow B) (b : B) :
  Flow_bind m f = Next b -> exists a, m = Next a /\ f a = Next b.
Proof. destruct m; simpl; [eauto | done | done]. Qed.

Section ComparatorTheorems.
Context `{Runtime}.

Ltac unfold_slots :=
  unfold slots, fmask_slot, image_slot, tex_buffer_slot, buffer_slot,
    first_binding in *.

Ltac key_fields :=
  cbn [info runtime_info fetch_shader_data vs_attribs bitset buffers
       tex_buffers images fmasks samplers start].

(** A comparison that falls through has counted one index per tracked entry
    of the candidate. *)
Lemma StageSpecialization_eq_state_Next (this other : StageSpecialization)
    (b : N) :
  StageSpecialization_eq_state this other = Next b -> b = slots this.
Proof.
  unfold StageSpecialization_eq_state. cbv zeta.
  rewrite first_binding_incr. intros Hrun.
  do 5 (apply Flow_bind_Next_inv in Hrun as (_ & _ & Hrun)).
  apply Flow_bind_Next_inv in Hrun as (b1 & E1 & Hrun).
  apply Flow_bind_Next_inv in Hrun as (b2 & E2 & Hrun).
  apply Flow_bind_Next_inv in Hrun as (b3 & E3 & Hrun).
  apply Flow_bind_Next_inv in Hrun as (b4 & E4 & Hrun).
  apply Flow_bind_Next_inv in Hrun as (_ & _ & Hrun).
  injection Hrun as <-.
  apply compare_gated_Next in E1 as ->. apply compare_gated_Next in E2 as ->.
  apply compare_gated_Next in E3 as ->. apply compare_gated_Next in E4 as ->.
  reflexivity.
Qed.

(** The result of [operator==] on keys of the same shape within the
    capacity. *)
Lemma Equal_cases (this other : StageSpecialization) :
  same_shape this other ->
  slots this <= MaxStageResources ->
  (Equal this other = Some true /\ keys_match this other) \/
  (Equal this other = Some false /\ ~ keys_match this other).
Proof.
  intros Hshape Hcap. unfold Equal, StageSpecialization_eq.
  destruct (StageSpecialization_eq_state_spec this other Hshape Hcap)
    as [[-> Hm] | [-> Hm]]; [by left | by right].
Qed.

Lemma entries_match_refl {Spec : Type} (eq_op : Spec -> Spec -> bool)
    (l : list Spec) :
  (forall x, eq_op x x = true) -> entries_match eq_op l l.
Proof. intros Hrefl j x y Hx Hy. rewrite Hx in Hy. by injection Hy as <-. Qed.

Lemma slots_match_refl {Spec : Type} (eq_op : Spec -> Spec -> bool)
    (bits : N) (pos : nat -> N) (l : list Spec) :
  (forall x, eq_op x x = true) -> slots_match eq_op bits pos l l.
Proof. intros Hrefl j x y Hx Hy _. rewrite Hx in Hy. by injection Hy as <-. Qed.

Lemma keys_match_refl (A : StageSpecialization) : keys_match A A.
Proof.
  unfold keys_match. repeat split.
  - apply entries_match_refl. intros x. by apply VsAttribSpecialization_eq_true.
  - apply slots_match_refl. apply BufferSpecialization_eq_refl.
  - apply slots_match_refl. intros x.
    by apply TextureBufferSpecialization_eq_true.
  - apply slots_match_refl. intros x. by apply ImageSpecialization_eq_true.
  - apply slots_match_refl. intros x. by apply FMaskSpecialization_eq_true.
  - apply entries_match_refl. intros x. by apply SamplerSpecialization_eq_true.
Qed.

Ltac enter_comparison :=
  unfold Equal, StageSpecialization_eq;
  match goal with
  | |- match ?a with _ => _ end = match ?b with _ => _ end =>
      cut (a = b); [by intros -> |]
  end;
  unfold StageSpecialization_eq_state, with_buffers, with_tex_buffers,
    with_images, with_fmasks;
  key_fields; cbv zeta; rewrite first_binding_incr;
  repeat (apply Flow_bind_ext_Next; intros ? ?);
  repeat match goal with
         | E : compare_gated _ _ _ _ _ _ = Next _ |- _ =>
             apply compare_gated_Next in E; subst
         end.

(** C1. For a candidate and a cached key, in each of the four tracked
    categories: replacing the candidate's record, or the cached record, at a
    slot whose bit is unset in the cached key by any record leaves the result
    of [Equal] unchanged, so the two records are compared only when the bit
    is set; and on keys of identical shape within the capacity, a slot whose
    bit is set in the cached key and whose two records are unequal under the
    category's operator makes [Equal] return [false]. *)
Theorem gated_slot_comparison (candidate cached : StageSpecialization) :
  ((forall (j : nat) (r : BufferSpecialization),
      N.testbit (bitset cached) (buffer_slot candidate j) = false ->
      Equal (with_buffers candidate (<[j:=r]> (buffers candidate))) cached
        = Equal candidate cached) /\
   (forall (j : nat) (r : TextureBufferSpecialization),
      N.testbit (bitset cached) (tex_buffer_slot candidate j) = false ->
      Equal (with_tex_buffers candidate (<[j:=r]> (tex_buffers candidate)))
        cached = Equal candidate cached) /\
   (forall (j : nat) (r : ImageSpecialization),
      N.testbit (bitset cached) (image_slot candidate j) = false ->
      Equal (with_images candidate (<[j:=r]> (images candidate))) cached
        = Equal candidate cached) /\
   (forall (j : nat) (r : FMaskSpecialization),
      N.testbit (bitset cached) (fmask_slot candidate j) = false ->
      Equal (with_fmasks candidate (<[j:=r]> (fmasks candidate))) cached
        = Equal candidate cached)) /\
  ((forall (j : nat) (r : BufferSpecialization),
      N.testbit (bitset cached) (buffer_slot candidate j) = false ->
      Equal candidate (with_buffers cached (<[j:=r]> (buffers cached)))
        = Equal candidate cached) /\
   (forall (j : nat) (r : TextureBufferSpecialization),
      N.testbit (bitset cached) (tex_buffer_slot candidate j) = false ->
      Equal candidate
        (with_tex_buffers cached (<[j:=r]> (tex_buffers cached)))
        = Equal candidate cached) /\
   (forall (j : nat) (r : ImageSpecialization),
      N.testbit (bitset cached) (image_slot candidate j) = false ->
      Equal candidate (with_images cached (<[j:=r]> (images cached)))
        = Equal candidate cached) /\
   (forall (j : nat) (r : FMaskSpecialization),
      N.testbit (bitset cached) (fmask_slot candidate j) = false ->
      Equal candidate (with_fmasks cached (<[j:=r]> (fmasks cached)))
        = Equal candidate cached)) /\
  (same_shape candidate cached ->
   slots candidate <= MaxStageResources ->
   (forall (j : nat) (x y : BufferSpecialization),
      buffers candidate !! j = Some x -> buffers cached !! j = Some y ->
      N.testbit (bitset cached) (buffer_slot candidate j) = true ->
      BufferSpecialization_eq x y = false ->
      Equal candidate cached = Some false) /\
   (forall (j : nat) (x y : TextureBufferSpecialization),
      tex_buffers candidate !! j = Some x ->
      tex_buffers cached !! j = Some y ->
      N.testbit (bitset cached) (tex_buffer_slot candidate j) = true ->
      TextureBufferSpecialization_eq x y = false ->
      Equal candidate cached = Some false) /\
   (forall (j : nat) (x y : ImageSpecialization),
      images candidate !! j = Some x -> images cached !! j = Some y ->
      N.testbit (bitset cached) (image_slot candidate j) = true ->
      ImageSpecialization_eq x y = false ->
      Equal candidate cached = Some false) /\
   (forall (j : nat) (x y : FMaskSpecialization),
      fmasks candidate !! j = Some x -> fmasks cached !! j = Some y ->
      N.testbit (bitset cached) (fmask_slot candidate j) = true ->
      FMaskSpecialization_eq x y = false ->
      Equal candidate cached = Some false)).
Proof.
  split; [| split].
  - repeat split; intros j r Hbit; enter_comparison.
    + by rewrite compare_gated_insert.
    + by rewrite compare_gated_insert.
    + by rewrite compare_gated_insert.
    + by rewrite compare_gated_insert.
  - repeat split; intros j r Hbit; enter_comparison.
    + rewrite compare_gated_insert_theirs; [done | lia |].
      by rewrite Nat.sub_0_r.
    + rewrite compare_gated_insert_theirs; [done | lia |].
      by rewrite Nat.sub_0_r.
    + rewrite compare_gated_insert_theirs; [done | lia |].
      by rewrite Nat.sub_0_r.
    + rewrite compare_gated_insert_theirs; [done | lia |].
      by rewrite Nat.sub_0_r.
  - intros Hshape Hcap.
    destruct (Equal_cases candidate cached Hshape Hcap)
      as [[_ Hm] | [-> _]]; [| done].
    destruct Hm as (_ & _ & _ & _ & _ & Hb & Ht & Hi & Hf & _).
    repeat split; intros j x y Hx Hy Hbit Hne.
    + by rewrite (Hb j x y Hx Hy Hbit) in Hne.
    + by rewrite (Ht j x y Hx Hy Hbit) in Hne.
    + by rewrite (Hi j x y Hx Hy Hbit) in Hne.
    + by rewrite (Hf j x y Hx Hy Hbit) in Hne.
Qed.

(** C4. Samplers are compared entry by entry with no gating: on keys of
    identical shape within the capacity, two sampler records at one index
    with different [force_unnormalized] make [Equal] return [false],
    whatever the bitsets of the two keys are. *)
Theorem sampler_mismatch_breaks_equality
    (candidate cached : StageSpecialization) (i : nat)
    (x y : SamplerSpecialization) :
  same_shape candidate cached ->
  slots candidate <= MaxStageResources ->
  samplers candidate !! i = Some x ->
  samplers cached !! i = Some y ->
  smp_force_unnormalized x <> smp_force_unnormalized y ->
  forall bits_candidate bits_cached : N,
    Equal (with_bitset candidate bits_candidate)
          (with_bitset cached bits_cached) = Some false.
Proof.
  intros Hshape Hcap Hx Hy Hne bits_c bits_k.
  destruct (Equal_cases (with_bitset candidate bits_c)
              (with_bitset cached bits_k)) as [[_ Hm] | [-> _]];
    [done | done | | done].
  destruct Hm as (_ & _ & _ & _ & _ & _ & _ & _ & _ & Hs).
  specialize (Hs i x y Hx Hy).
  apply SamplerSpecialization_eq_true in Hs. by subst.
Qed.

(** C7. A key built within the bitset capacity equals itself: the
    constructor returns a key [A] and [Equal A A] returns [true]. *)
Theorem Equal_reflexive (info_ : Info) (rt : RuntimeInfo) (p : Profile)
    (s : Bindings) :
  tracked_slots info_ <= MaxStageResources ->
  exists A : StageSpecialization,
    Build info_ rt p s = Some A /\ Equal A A = Some true.
Proof.
  intros Hcap.
  destruct (StageSpecialization_ctor_state_total info_ rt p s Hcap)
    as [[b A] Hrun].
  assert (HA : StageSpecialization_ctor info_ rt p s = Some A).
  { unfold StageSpecialization_ctor. by rewrite Hrun. }
  exists A. split; [done |].
  destruct (Equal_cases A A) as [[-> _] | [_ Hm]]; [| | done |].
  - by repeat split.
  - by rewrite (built_slots _ _ _ _ _ HA).
  - destruct Hm. apply keys_match_refl.
Qed.

Lemma built_bitset (info_ : Info) (rt : RuntimeInfo) (p : Profile)
    (s : Bindings) (A : StageSpecialization) :
  tracked_slots info_ < u32_max ->
  Build info_ rt p s = Some A ->
  bitset_tracks info_ (bitset A).
Proof.
  intros Hcap HA. unfold Build, StageSpecialization_ctor in HA.
  destruct (StageSpecialization_ctor_state info_ rt p s) as [[b A'] |] eqn:E;
    [| done].
  injection HA as <-.
  by apply StageSpecialization_ctor_state_Some in E
    as (_ & _ & _ & _ & _ & _ & _ & _ & _ & Hbits).
Qed.

(** C5. Two keys built from providers with one image descriptor each, both
    resolved.  If both descriptors are bound as storage and the sharps'
    destination mappings differ, [Equal] returns [false].  If both are not
    storage and the sharps agree on bound type, integer-ness and number
    conversion, the mapping of both records stays at its default and, the
    rest of the two keys being equal, [Equal] returns [true] whatever the
    sharps' mappings are. *)
Theorem image_dst_select_scenarios
    (info_a info_b : Info) (rt_a rt_b : RuntimeInfo) (p_a p_b : Profile)
    (s_a s_b : Bindings) (A B : StageSpecialization)
    (desc_a desc_b : ImageResource) :
  Build info_a rt_a p_a s_a = Some A ->
  Build info_b rt_b p_b s_b = Some B ->
  same_shape A B ->
  tracked_slots info_a <= MaxStageResources ->
  Info_images info_a = [desc_a] ->
  Info_images info_b = [desc_b] ->
  Image_valid (ImageResource_GetSharp desc_a info_a) = true ->
  Image_valid (ImageResource_GetSharp desc_b info_b) = true ->
  (ImageResource_IsStorage desc_a (ImageResource_GetSharp desc_a info_a)
     = true ->
   ImageResource_IsStorage desc_b (ImageResource_GetSharp desc_b info_b)
     = true ->
   Image_DstSelect (ImageResource_GetSharp desc_a info_a)
     <> Image_DstSelect (ImageResource_GetSharp desc_b info_b) ->
   Equal A B = Some false) /\
  (ImageResource_IsStorage desc_a (ImageResource_GetSharp desc_a info_a)
     = false ->
   ImageResource_IsStorage desc_b (ImageResource_GetSharp desc_b info_b)
     = false ->
   Image_GetBoundType (ImageResource_GetSharp desc_a info_a)
     = Image_GetBoundType (ImageResource_GetSharp desc_b info_b) ->
   IsInteger (Image_GetNumberFmt (ImageResource_GetSharp desc_a info_a))
     = IsInteger (Image_GetNumberFmt (ImageResource_GetSharp desc_b info_b)) ->
   Image_GetNumberConversion (ImageResource_GetSharp desc_a info_a)
     = Image_GetNumberConversion (ImageResource_GetSharp desc_b info_b) ->
   start A = start B -> runtime_info A = runtime_info B ->
   fetch_shader_data A = fetch_shader_data B ->
   vs_attribs A = vs_attribs B ->
   Info_has_readconst info_a = Info_has_readconst info_b ->
   buffers A = buffers B -> tex_buffers A = tex_buffers B ->
   fmasks A = fmasks B -> samplers A = samplers B ->
   exists spec_a spec_b : ImageSpecialization,
     images A = [spec_a] /\ images B = [spec_b] /\
     img_dst_select spec_a = inhabitant /\
     img_dst_select spec_b = inhabitant /\
     Equal A B = Some true).
Proof.
  intros HA HB Hshape Hcap Hia Hib Hva Hvb.
  pose proof (built_slots _ _ _ _ _ HA) as HsA.
  pose proof (built_slots _ _ _ _ _ HB) as HsB.
  pose proof (StageSpecialization_ctor_entries _ _ _ _ _ HA)
    as (HiA & _ & _ & _ & HbA & HtA & HimA & HfA & _).
  pose proof (StageSpecialization_ctor_entries _ _ _ _ _ HB)
    as (HiB & _ & _ & _ & HbB & HtB & HimB & HfB & _).
  rewrite Hia in HimA. rewrite Hib in HimB. simpl in HimA, HimB.
  assert (HcapA : slots A <= MaxStageResources) by by rewrite HsA.
  split.
  - intros Hsa Hsb Hdst.
    destruct (Equal_cases A B Hshape HcapA) as [[_ Hm] | [-> _]]; [| done].
    destruct Hm as (_ & _ & _ & _ & Hrc & _ & _ & Him & _).
    destruct Hshape as (_ & Hlb & Hlt & Hli & Hlf & _).
    assert (Hpos : image_slot A 0 = image_binding info_b 0).
    { unfold image_slot, tex_buffer_slot, buffer_slot, image_binding.
      rewrite Hrc, HiB, Hlb, Hlt, HbB, HtB, !length_map. done. }
    assert (HcapB : tracked_slots info_b < u32_max).
    { rewrite <- HsB. unfold slots, fmask_slot, image_slot, tex_buffer_slot,
        buffer_slot, first_binding, u32_max, MaxStageResources in *.
      rewrite <- Hlb, <- Hlt, <- Hli, <- Hlf.
      destruct (Info_has_readconst (info B)),
        (Info_has_readconst (info A)); simpl in *; lia. }
    destruct (built_bitset _ _ _ _ _ HcapB HB) as (_ & _ & Hbits & _).
    specialize (Hbits 0%nat desc_b). rewrite Hib in Hbits.
    specialize (Hbits eq_refl). rewrite <- Hpos, Hvb in Hbits.
    specialize (Him 0%nat (image_entry info_a desc_a)
                  (image_entry info_b desc_b)).
    rewrite HimA, HimB in Him. specialize (Him eq_refl eq_refl Hbits).
    apply ImageSpecialization_eq_true in Him.
    apply (f_equal img_dst_select) in Him.
    unfold image_entry, entry_of in Him.
    rewrite Hva, Hvb in Him. simpl in Him. rewrite Hsa, Hsb in Him. done.
  - intros Hsa Hsb Hty Hint Hconv Hst Hrt Hfe Hvs Hrc Hb Ht Hf Hsm.
    exists (image_entry info_a desc_a), (image_entry info_b desc_b).
    split; [done |]. split; [done |].
    assert (Hentry : image_entry info_a desc_a = image_entry info_b desc_b).
    { unfold image_entry, entry_of. rewrite Hva, Hvb. simpl.
      unfold fill_image. rewrite Hsa, Hsb, Hty, Hint, Hconv. done. }
    split; [| split].
    + unfold image_entry, entry_of. rewrite Hva. simpl. by rewrite Hsa.
    + unfold image_entry, entry_of. rewrite Hvb. simpl. by rewrite Hsb.
    + destruct (Equal_cases A B Hshape HcapA) as [[-> _] | [_ Hm]]; [done |].
      destruct Hm. unfold keys_match.
      rewrite Hvs, Hb, Ht, Hf, Hsm, HimA, HimB, Hentry, HiA, HiB.
      repeat (split; [done |]).
      pose proof (keys_match_refl B)
        as (_ & _ & _ & Hm1 & _ & Hm2 & Hm3 & _ & Hm4 & Hm5).
      split; [done |]. split; [done |].
      split; [by apply slots_match_refl, BufferSpecialization_eq_refl |].
      split;
        [apply slots_match_refl; intros x;
         by apply TextureBufferSpecialization_eq_true |].
      split;
        [apply slots_match_refl; intros x;
         by apply ImageSpecialization_eq_true |].
      split;
        [apply slots_match_refl; intros x;
         by apply FMaskSpecialization_eq_true |].
      done.
Qed.

End ComparatorTheorems.

(** ** The theorems on the sample providers *)

Lemma ctor_binding_counter_and_bitset_witness :
  tracked_slots demo_vertex_info < u32_max /\
  exists (b : N) (A : StageSpecialization),
    StageSpecialization_ctor_state demo_vertex_info 0 false 0 = Some (b, A) /\
    b = 8 /\ bitset A = 122 /\ bitset_tracks demo_vertex_info (bitset A).
Proof.
  split; [reflexivity |].
  eexists _, _. split; [reflexivity |].
  destruct (@ctor_binding_counter_and_bitset _ _ demo_Runtime
              demo_vertex_info 0 false 0 _ _ eq_refl eq_refl) as [Hb Hbits].
  split; [exact Hb |]. split; [reflexivity | exact Hbits].
Defined.

Lemma ctor_total_within_capacity_witness :
  tracked_slots demo_vertex_info <= MaxStageResources /\
  exists A : StageSpecialization,
    StageSpecialization_ctor demo_vertex_info 0 false 0 = Some A /\
    forall q : N, N.testbit (bitset A) q = true -> q < MaxStageResources.
Proof.
  split; [by vm_compute |].
  apply (@ctor_total_within_capacity _ _ demo_Runtime demo_vertex_info
           0 false 0).
  by vm_compute.
Defined.

Lemma storage_buffer_size_stays_default_witness :
  StageSpecialization_ctor demo_vertex_info 0 false 0
    = Some (demo_key demo_vertex_info) /\
  Info_buffers demo_vertex_info !! 2%nat = Some (demo_buffer true 4 77 true) /\
  exists spec : BufferSpecialization,
    buffers (demo_key demo_vertex_info) !! 2%nat = Some spec /\
    buf_is_storage spec = true /\ buf_size spec = 0.
Proof.
  split; [reflexivity |]. split; [reflexivity |].
  destruct (@storage_buffer_size_stays_default _ _ demo_Runtime
              demo_vertex_info 0 false 0 (demo_key demo_vertex_info) 2%nat
              (demo_buffer true 4 77 true) eq_refl eq_refl eq_refl)
    as (spec & Hspec & Hstorage & Hzero & _).
  exists spec. split; [exact Hspec |].
  split; [exact Hstorage | exact (Hzero Hstorage)].
Defined.

Lemma fetch_shader_data_always_parsed_witness :
  StageSpecialization_ctor demo_vertex_info 0 false 0
    = Some (demo_key demo_vertex_info) /\
  fetch_shader_data (demo_key demo_vertex_info)
    = Some [mkDemoBuffer true 0 0 7 0 0] /\
  vs_attribs (demo_key demo_vertex_info) = [{| vs_num_class := 1 |}].
Proof.
  split; [reflexivity |].
  destruct (@fetch_shader_data_always_parsed _ _ demo_Runtime
              demo_vertex_info 0 false 0 (demo_key demo_vertex_info) eq_refl)
    as (Hfetch & Hfilled & _).
  split; [exact Hfetch |].
  exact (Hfilled eq_refl eq_refl _ eq_refl).
Defined.

(** C3 as stated fails: a vertex stage with a fetch shader, built under a
    profile that supports legacy vertex attributes, still has its
    [fetch_shader_data] parsed and present. *)
Lemma fetch_shader_data_present_under_legacy_profile :
  ~ (forall A : StageSpecialization,
       StageSpecialization_ctor demo_vertex_info 0 true 0 = Some A ->
       is_Some (fetch_shader_data A) ->
       Info_stage demo_vertex_info = Vertex /\
       support_legacy_vertex_attributes (true : Profile) = false).
Proof.
  intros Hclaim.
  destruct (Hclaim demo_legacy_key eq_refl) as [_ Hlegacy].
  - by eexists.
  - discriminate Hlegacy.
Qed.

Lemma Equal_reflexive_witness :
  tracked_slots demo_vertex_info <= MaxStageResources /\
  exists A : StageSpecialization,
    Build demo_vertex_info 0 false 0 = Some A /\ Equal A A = Some true.
Proof.
  split; [by vm_compute |].
  apply (@Equal_reflexive _ _ demo_Runtime demo_vertex_info 0 false 0).
  by vm_compute.
Defined.

Lemma sampler_mismatch_breaks_equality_witness :
  Equal
    (with_bitset
       (demo_key (demo_provider false [] [] [mkDemoSampler true true])) 1)
    (with_bitset
       (demo_key (demo_provider false [] [] [mkDemoSampler true false])) 0)
  = Some false.
Proof.
  apply (@sampler_mismatch_breaks_equality _ _ demo_Runtime
           (demo_key (demo_provider false [] [] [mkDemoSampler true true]))
           (demo_key (demo_provider false [] [] [mkDemoSampler true false]))
           0%nat {| smp_force_unnormalized := true |}
           {| smp_force_unnormalized := false |}).
  - by repeat split.
  - by vm_compute.
  - reflexivity.
  - reflexivity.
  - by vm_compute.
Defined.

Lemma gated_slot_comparison_witness :
  (N.testbit
     (bitset (demo_key (demo_provider false [demo_buffer false 0 0 false]
                          [] [])))
     (buffer_slot
        (demo_key (demo_provider false [demo_buffer true 16 1024 false]
                     [] [])) 0) = false /\
   Equal
     (with_buffers
        (demo_key (demo_provider false [demo_buffer true 16 1024 false]
                     [] []))
        [{| buf_stride := 48; buf_is_storage := true; buf_size := 0 |}])
     (demo_key (demo_provider false [demo_buffer false 0 0 false] [] []))
   = Some true) /\
  (N.testbit
     (bitset (demo_key (demo_provider false [demo_buffer true 16 1024 false]
                          [] [])))
     (buffer_slot
        (demo_key (demo_provider false [demo_buffer true 32 1024 false]
                     [] [])) 0) = true /\
   Equal
     (demo_key (demo_provider false [demo_buffer true 32 1024 false] [] []))
     (demo_key (demo_provider false [demo_buffer true 16 1024 false] [] []))
   = Some false).
Proof.
  split.
  - split; [reflexivity |].
    destruct (@gated_slot_comparison _ _ demo_Runtime
                (demo_key (demo_provider false
                             [demo_buffer true 16 1024 false] [] []))
                (demo_key (demo_provider false
                             [demo_buffer false 0 0 false] [] [])))
      as [[Hignored _] _].
    exact (Hignored 0%nat
             {| buf_stride := 48; buf_is_storage := true; buf_size := 0 |}
             eq_refl).
  - split; [reflexivity |].
    destruct (@gated_slot_comparison _ _ demo_Runtime
                (demo_key (demo_provider false
                             [demo_buffer true 32 1024 false] [] []))
                (demo_key (demo_provider false
                             [demo_buffer true 16 1024 false] [] [])))
      as (_ & _ & Hset).
    destruct Hset as [Hbuf _]; [by repeat split | by vm_compute |].
    exact (Hbuf 0%nat _ _ eq_refl eq_refl eq_refl eq_refl).
Defined.

Lemma image_dst_select_scenarios_witness :
  Equal (demo_key (demo_provider false [] [demo_image true 5 true] []))
        (demo_key (demo_provider false [] [demo_image true 6 true] []))
    = Some false /\
  exists spec_a spec_b : ImageSpecialization,
    images (demo_key (demo_provider false [] [demo_image true 5 false] []))
      = [spec_a] /\
    images (demo_key (demo_provider false [] [demo_image true 6 false] []))
      = [spec_b] /\
    img_dst_select spec_a = inhabitant /\
    img_dst_select spec_b = inhabitant /\
    Equal (demo_key (demo_provider false [] [demo_image true 5 false] []))
          (demo_key (demo_provider false [] [demo_image true 6 false] []))
      = Some true.
Proof.
  split.
  - destruct (@image_dst_select_scenarios _ _ demo_Runtime
                (demo_provider false [] [demo_image true 5 true] [])
                (demo_provider false [] [demo_image true 6 true] [])
                0 0 false false 0 0 _ _
                (demo_image true 5 true) (demo_image true 6 true)
                eq_refl eq_refl) as [Hstorage _];
      [by repeat split | by vm_compute | reflexivity | reflexivity
      | reflexivity | reflexivity |].
    apply Hstorage; [reflexivity | reflexivity | by vm_compute].
  - destruct (@image_dst_select_scenarios _ _ demo_Runtime
                (demo_provider false [] [demo_image true 5 false] [])
                (demo_provider false [] [demo_image true 6 false] [])
                0 0 false false 0 0 _ _
                (demo_image true 5 false) (demo_image true 6 false)
                eq_refl eq_refl) as [_ Hplain];
      [by repeat split | by vm_compute | reflexivity | reflexivity
      | reflexivity | reflexivity |].
    apply Hplain; reflexivity.
Defined.

(** * The controller axis *)

Section ControllerProperties.
Local Open Scope Z_scope.

Lemma int_result_Some (z v : Z) :
  int_result z = Some v <-> v = z /\ INT_MIN <= z <= INT_MAX.
Proof.
  unfold int_result. case_decide; split.
  - by intros [= <-].
  - by intros [-> _].
  - done.
  - intros [_ Hz]. done.
Qed.

Lemma quot_abs_le (n r : Z) : r <> 0 -> Z.abs (n ÷ r) <= Z.abs n.
Proof.
  intros Hr.
  pose proof (Z.quot_rem' n r) as Hqr.
  pose proof (Z.rem_bound_abs n r Hr) as Hbound.
  pose proof (Z.rem_sign_mul n r Hr) as Hsign.
  nia.
Qed.

Lemma GetAxis_Some (min max value v : Z) :
  GetAxis min max value = Some v <->
  max <> min /\
  INT_MIN <= 255 * (value - min) <= INT_MAX /\
  INT_MIN <= max - min <= INT_MAX /\
  v = clamp_axis (255 * (value - min) ÷ (max - min)).
Proof.
  unfold GetAxis, int_div, int_result, clamp_axis.
  split.
  - intros Hrun.
    destruct (decide (INT_MIN <= value - min <= INT_MAX)) as [Hd |];
      [| done]. cbn [mbind option_bind] in Hrun.
    destruct (decide (INT_MIN <= 255 * (value - min) <= INT_MAX)) as [Hn |];
      [| done]. cbn [mbind option_bind] in Hrun.
    destruct (decide (INT_MIN <= max - min <= INT_MAX)) as [Hr |];
      [| done]. cbn [mbind option_bind] in Hrun.
    destruct (decide (max - min = 0)) as [| Hz]; [done |].
    destruct (decide (INT_MIN <= 255 * (value - min) ÷ (max - min)
                      <= INT_MAX)) as [Hq |]; [| done].
    cbn [mbind option_bind] in Hrun.
    injection Hrun as <-. repeat split; try done; lia.
  - intros (Hne & Hn & Hr & ->).
    pose proof (quot_abs_le (255 * (value - min)) (max - min)) as Habs.
    destruct (decide (INT_MIN <= value - min <= INT_MAX)) as [Hd | Hd];
      [| unfold INT_MIN, INT_MAX in *; lia]. cbn [mbind option_bind].
    destruct (decide (INT_MIN <= 255 * (value - min) <= INT_MAX)) as [_ |];
      [| done]. cbn [mbind option_bind].
    destruct (decide (INT_MIN <= max - min <= INT_MAX)) as [_ |];
      [| done]. cbn [mbind option_bind].
    destruct (decide (max - min = 0)) as [| Hz]; [lia |].
    destruct (decide (INT_MIN <= 255 * (value - min) ÷ (max - min)
                      <= INT_MAX)) as [_ | Hq]; [done |].
    unfold INT_MIN, INT_MAX in *. lia.
Qed.

Lemma clamp_axis_mono (a b : Z) : a <= b -> clamp_axis a <= clamp_axis b.
Proof. unfold clamp_axis. intros Hab. repeat case_decide; lia. Qed.

(** X11. [GetAxis] is defined exactly when the range is not empty and
    neither [255 * (value - min)] nor [max - min] overflows an [int]: the
    subtraction [value - min] and the division then cannot overflow. *)
Theorem GetAxis_defined_iff (min max value : Z) :
  is_Some (GetAxis min max value) <->
  max <> min /\
  INT_MIN <= 255 * (value - min) <= INT_MAX /\
  INT_MIN <= max - min <= INT_MAX.
Proof.
  split.
  - intros [v Hv]. apply GetAxis_Some in Hv. tauto.
  - intros (Hne & Hn & Hr).
    exists (clamp_axis (255 * (value - min) ÷ (max - min))).
    apply GetAxis_Some. tauto.
Qed.

(** X12. Every result of [GetAxis] lies in [0..255]; [value = min] gives 0
    and [value = max] gives 255, for a rising ([min < max]) and for a falling
    ([max < min]) range alike. *)
Theorem GetAxis_range_and_endpoints (min max : Z) :
  (forall value v : Z, GetAxis min max value = Some v -> 0 <= v <= 255) /\
  (max <> min -> INT_MIN <= max - min <= INT_MAX ->
   GetAxis min max min = Some 0) /\
  (max <> min -> INT_MIN <= 255 * (max - min) <= INT_MAX ->
   GetAxis min max max = Some 255).
Proof.
  split; [| split].
  - intros value v Hv. apply GetAxis_Some in Hv as (_ & _ & _ & ->).
    unfold clamp_axis. repeat case_decide; lia.
  - intros Hne Hr. apply GetAxis_Some.
    split; [done |]. split; [unfold INT_MIN, INT_MAX; lia |].
    split; [done |].
    replace (255 * (min - min)) with 0 by lia.
    by rewrite Z.quot_0_l by lia.
  - intros Hne Hn. apply GetAxis_Some.
    split; [done |]. split; [done |].
    split; [unfold INT_MIN, INT_MAX in *; lia |].
    rewrite Z.quot_mul by lia. done.
Qed.

(** X13. On a rising range ([min < max]) a defined [GetAxis] saturates at 0
    for values up to [min] and at 255 for values from [max] on, and in
    between returns the floor of [255 * (value - min) / (max - min)] without
    clamping. *)
Theorem GetAxis_piecewise (min max value v : Z) :
  min < max ->
  GetAxis min max value = Some v ->
  (value <= min -> v = 0) /\
  (max <= value -> v = 255) /\
  (min <= value <= max -> v = 255 * (value - min) / (max - min)).
Proof.
  intros Hlt Hv. apply GetAxis_Some in Hv as (_ & _ & _ & ->).
  unfold clamp_axis. split; [| split].
  - intros Hle.
    assert (255 * (value - min) ÷ (max - min) <= 0).
    { rewrite <- (Z.quot_0_l (max - min)) by lia.
      apply Z.quot_le_mono; lia. }
    repeat case_decide; lia.
  - intros Hge.
    assert (255 <= 255 * (value - min) ÷ (max - min))
      by (apply Z.quot_le_lower_bound; lia).
    repeat case_decide; lia.
  - intros [Hlo Hhi].
    rewrite Z.quot_div_nonneg by lia.
    assert (0 <= 255 * (value - min) / (max - min))
      by (apply Z.div_pos; lia).
    assert (255 * (value - min) / (max - min) <= 255)
      by (apply Z.div_le_upper_bound; lia).
    repeat case_decide; lia.
Qed.

(** X14. [GetAxis] is monotone in [value]: non-decreasing on a rising range
    and non-increasing on a falling one. *)
Theorem GetAxis_monotone (min max value1 value2 v1 v2 : Z) :
  value1 <= value2 ->
  GetAxis min max value1 = Some v1 ->
  GetAxis min max value2 = Some v2 ->
  (min < max -> v1 <= v2) /\ (max < min -> v2 <= v1).
Proof.
  intros Hle H1 H2.
  apply GetAxis_Some in H1 as (_ & _ & _ & ->).
  apply GetAxis_Some in H2 as (_ & _ & _ & ->).
  split; intros Hdir; apply clamp_axis_mono.
  - apply Z.quot_le_mono; lia.
  - replace (max - min) with (- (min - max)) by lia.
    rewrite !Z.quot_opp_r by lia.
    apply Z.opp_le_mono. rewrite !Z.opp_involutive.
    apply Z.quot_le_mono; lia.
Qed.

End ControllerProperties.

(** * More on the comparator *)

Section ComparatorRelation.
Context `{Runtime}.

Ltac unfold_slots :=
  unfold slots, fmask_slot, image_slot, tex_buffer_slot, buffer_slot,
    first_binding in *.

Lemma same_shape_sym (a b : StageSpecialization) :
  same_shape a b -> same_shape b a.
Proof. unfold same_shape. intuition congruence. Qed.

Lemma slot_positions_agree (a b : StageSpecialization) :
  same_shape a b ->
  Info_has_readconst (info a) = Info_has_readconst (info b) ->
  (forall j, buffer_slot a j = buffer_slot b j) /\
  (forall j, tex_buffer_slot a j = tex_buffer_slot b j) /\
  (forall j, image_slot a j = image_slot b j) /\
  (forall j, fmask_slot a j = fmask_slot b j) /\
  slots a = slots b.
Proof.
  intros (_ & Hb & Ht & Hi & Hf & _) Hrc.
  unfold slots, fmask_slot, image_slot, tex_buffer_slot, buffer_slot.
  rewrite Hrc, Hb, Ht, Hi, Hf. done.
Qed.

Lemma slot_below_slots (a : StageSpecialization) (j : nat) :
  ((j < length (buffers a))%nat -> buffer_slot a j < slots a) /\
  ((j < length (tex_buffers a))%nat -> tex_buffer_slot a j < slots a) /\
  ((j < length (images a))%nat -> image_slot a j < slots a) /\
  ((j < length (fmasks a))%nat -> fmask_slot a j < slots a).
Proof. unfold_slots. repeat split; lia. Qed.

(** A mismatch of the read-constant flags is found before any tracked slot
    is looked at. *)
Lemma Equal_readconst_differs (this other : StageSpecialization) :
  length (vs_attribs this) = length (vs_attribs other) ->
  Info_has_readconst (info this) <> Info_has_readconst (info other) ->
  Equal this other = Some false.
Proof.
  intros Hvs Hrc.
  unfold Equal, StageSpecialization_eq, StageSpecialization_eq_state.
  cbv zeta.
  case_bool_decide; cbn [negb return_false_if Flow_bind]; [| done].
  case_bool_decide; cbn [negb return_false_if Flow_bind]; [| done].
  case_bool_decide; cbn [negb return_false_if Flow_bind]; [| done].
  destruct (compare_each_spec VsAttribSpecialization_eq
              (vs_attribs this) (vs_attribs other) 0) as [[-> _] | [-> _]];
    [simpl; lia | | done].
  cbn [Flow_bind].
  destruct (eqb _ _) eqn:Heq; [| done].
  by apply (proj1 (eqb_true_iff' _ _)) in Heq.
Qed.

Section Relation.
Context {Spec : Type} (eq_op : Spec -> Spec -> bool).
Hypothesis eq_op_sym : forall x y, eq_op x y = true -> eq_op y x = true.
Hypothesis eq_op_trans :
  forall x y z, eq_op x y = true -> eq_op y z = true -> eq_op x z = true.

Lemma entries_match_sym (l l' : list Spec) :
  entries_match eq_op l l' -> entries_match eq_op l' l.
Proof. intros Hm j x y Hx Hy. apply eq_op_sym. by apply (Hm j y x). Qed.

Lemma entries_match_trans (l1 l2 l3 : list Spec) :
  length l1 = length l2 ->
  entries_match eq_op l1 l2 -> entries_match eq_op l2 l3 ->
  entries_match eq_op l1 l3.
Proof.
  intros Hlen H12 H23 j x z Hx Hz.
  destruct (lookup_lt_is_Some_2 l2 j) as [y Hy].
  { rewrite <- Hlen. by apply lookup_lt_Some in Hx. }
  apply (eq_op_trans x y z); [by apply (H12 j) | by apply (H23 j)].
Qed.

Lemma slots_match_sym (bits bits' : N) (pos pos' : nat -> N)
    (l l' : list Spec) :
  (forall j, (j < length l)%nat ->
     pos' j = pos j /\ N.testbit bits' (pos j) = N.testbit bits (pos j)) ->
  slots_match eq_op bits pos l l' -> slots_match eq_op bits' pos' l' l.
Proof.
  intros Hpos Hm j x y Hx Hy Hbit. apply eq_op_sym.
  destruct (Hpos j) as [Hp Hb]; [by apply lookup_lt_Some in Hy |].
  apply (Hm j y x Hy Hx). by rewrite <- Hb, <- Hp.
Qed.

Lemma slots_match_trans (bits2 bits3 : N) (pos pos' : nat -> N)
    (l1 l2 l3 : list Spec) :
  length l1 = length l2 ->
  (forall j, pos' j = pos j) ->
  (forall p, N.testbit bits3 p = true -> N.testbit bits2 p = true) ->
  slots_match eq_op bits2 pos l1 l2 -> slots_match eq_op bits3 pos' l2 l3 ->
  slots_match eq_op bits3 pos l1 l3.
Proof.
  intros Hlen Hpos Hsub H12 H23 j x z Hx Hz Hbit.
  destruct (lookup_lt_is_Some_2 l2 j) as [y Hy].
  { rewrite <- Hlen. by apply lookup_lt_Some in Hx. }
  apply (eq_op_trans x y z).
  - apply (H12 j x y Hx Hy). by apply Hsub.
  - apply (H23 j y z Hy Hz). by rewrite Hpos.
Qed.

Lemma slots_match_subset (bits bits' : N) (pos : nat -> N)
    (l l' : list Spec) :
  (forall p, N.testbit bits' p = true -> N.testbit bits p = true) ->
  slots_match eq_op bits pos l l' -> slots_match eq_op bits' pos l l'.
Proof. intros Hsub Hm j x y Hx Hy Hbit. apply (Hm j x y Hx Hy). auto. Qed.

End Relation.

Lemma BufferSpecialization_eq_sym (x y : BufferSpecialization) :
  BufferSpecialization_eq x y = true -> BufferSpecialization_eq y x = true.
Proof. rewrite !BufferSpecialization_eq_true. intuition congruence. Qed.

Lemma BufferSpecialization_eq_trans (x y z : BufferSpecialization) :
  BufferSpecialization_eq x y = true -> BufferSpecialization_eq y z = true ->
  BufferSpecialization_eq x z = true.
Proof. rewrite !BufferSpecialization_eq_true. intuition congruence. Qed.

Ltac leibniz_sym lem :=
  let x := fresh in let y := fresh in
  intros x y; rewrite !lem; congruence.

Ltac leibniz_trans lem :=
  let x := fresh in let y := fresh in let z := fresh in
  intros x y z; rewrite !lem; congruence.

Lemma keys_match_sym (a b : StageSpecialization) :
  same_shape a b ->
  (forall p, p < slots a -> N.testbit (bitset a) p = N.testbit (bitset b) p) ->
  keys_match a b -> keys_match b a.
Proof.
  intros Hshape Hbits (Hst & Hrt & Hfe & Hvs & Hrc & Hb & Ht & Hi & Hf & Hsm).
  destruct (slot_positions_agree a b Hshape Hrc)
    as (Pb & Pt & Pi & Pf & _).
  unfold keys_match. repeat split; try done.
  - revert Hvs. apply entries_match_sym.
    leibniz_sym VsAttribSpecialization_eq_true.
  - revert Hb. apply slots_match_sym; [apply BufferSpecialization_eq_sym |].
    intros j Hj. split; [done |]. apply Hbits.
    by apply (slot_below_slots a j).
  - revert Ht. apply slots_match_sym;
      [leibniz_sym TextureBufferSpecialization_eq_true |].
    intros j Hj. split; [done |]. apply Hbits.
    by apply (slot_below_slots a j).
  - revert Hi. apply slots_match_sym;
      [leibniz_sym ImageSpecialization_eq_true |].
    intros j Hj. split; [done |]. apply Hbits.
    by apply (slot_below_slots a j).
  - revert Hf. apply slots_match_sym;
      [leibniz_sym FMaskSpecialization_eq_true |].
    intros j Hj. split; [done |]. apply Hbits.
    by apply (slot_below_slots a j).
  - revert Hsm. apply entries_match_sym.
    leibniz_sym SamplerSpecialization_eq_true.
Qed.

End ComparatorRelation.

Lemma Flow_bind_Return_inv {A B : Type} (m : Flow A) (f : A -> Flow B)
    (r : bool) :
  Flow_bind m f = Return r ->
  m = Return r \/ exists a, m = Next a /\ f a = Return r.
Proof. destruct m; simpl; [eauto | intros [= ->]; by left | done]. Qed.

Section GatedLoopBits.
Context {Spec : Type} (eq_op : Spec -> Spec -> bool).

(** The loops return nothing but [false]. *)
Lemma compare_each_Return (mine theirs : list Spec) (i : nat) (r : bool) :
  compare_each eq_op i mine theirs = Return r -> r = false.
Proof.
  revert i. induction mine as [| x rest IH]; intros i; simpl; [done |].
  destruct (theirs !! i) as [y |]; [| done].
  destruct (negb (eq_op x y)); [by intros [= <-] | apply IH].
Qed.

Lemma compare_gated_Return (bits : N) (mine theirs : list Spec) (i : nat)
    (binding : N) (r : bool) :
  compare_gated eq_op bits i mine theirs binding = Return r -> r = false.
Proof.
  revert i binding.
  induction mine as [| x rest IH]; intros i binding; simpl; [done |].
  destruct (bitset_test bits binding) as [[|] |]; [| apply IH | done].
  destruct (theirs !! i) as [y |]; [| done].
  destruct (negb (eq_op x y)); [by intros [= <-] | apply IH].
Qed.

(** A gated loop that falls through still does with fewer bits set. *)
Lemma compare_gated_fewer_bits (bits bits' : N) (mine theirs : list Spec)
    (i : nat) (binding b : N) :
  (forall p, N.testbit bits' p = true -> N.testbit bits p = true) ->
  compare_gated eq_op bits i mine theirs binding = Next b ->
  compare_gated eq_op bits' i mine theirs binding = Next b.
Proof.
  intros Hsub. revert i binding.
  induction mine as [| x rest IH]; intros i binding; simpl; [done |].
  unfold bitset_test. case_decide as Hb; [| done].
  destruct (N.testbit bits' binding) eqn:Hbit'.
  - rewrite (Hsub _ Hbit').
    destruct (theirs !! i) as [y |]; [| done].
    destruct (negb (eq_op x y)); [done | apply IH].
  - destruct (N.testbit bits binding); [| apply IH].
    destruct (theirs !! i) as [y |]; [| done].
    destruct (negb (eq_op x y)); [done | apply IH].
Qed.

End GatedLoopBits.

Section ComparatorBits.
Context `{Runtime}.

(** [operator==] has no [return true] before its last statement. *)
Lemma StageSpecialization_eq_state_Return (this other : StageSpecialization)
    (r : bool) :
  StageSpecialization_eq_state this other = Return r -> r = false.
Proof.
  unfold StageSpecialization_eq_state. cbv zeta. intros Hrun.
  repeat match type of Hrun with
  | Flow_bind _ _ = Return _ =>
      apply Flow_bind_Return_inv in Hrun as [Hrun | (? & _ & Hrun)]
  end;
  first
    [ by apply compare_each_Return in Hrun
    | by apply compare_gated_Return in Hrun
    | done
    | unfold return_false_if in Hrun;
      match type of Hrun with
      | (if ?c then _ else _) = _ => destruct c; by inversion Hrun
      end ].
Qed.

(** A comparison that falls through still does when bits of the cached key
    are cleared. *)
Lemma StageSpecialization_eq_state_fewer_bits
    (this other : StageSpecialization) (bits b : N) :
  (forall p, N.testbit bits p = true -> N.testbit (bitset other) p = true) ->
  StageSpecialization_eq_state this other = Next b ->
  StageSpecialization_eq_state this (with_bitset other bits) = Next b.
Proof.
  intros Hsub.
  unfold StageSpecialization_eq_state, with_bitset.
  cbn [info runtime_info fetch_shader_data vs_attribs bitset buffers
       tex_buffers images fmasks samplers start].
  cbv zeta. intros Hrun.
  do 5 (apply Flow_bind_Next_inv in Hrun as (? & -> & Hrun);
        cbn [Flow_bind]).
  do 4 (let E := fresh "E" in
        apply Flow_bind_Next_inv in Hrun as (? & E & Hrun);
        apply (compare_gated_fewer_bits _ _ _ _ _ _ _ _ Hsub) in E;
        rewrite E; cbn [Flow_bind]).
  exact Hrun.
Qed.

End ComparatorBits.

Section ComparatorRelationTheorems.
Context `{Runtime}.

(** X1. On keys of identical shape within the bitset capacity [operator==]
    makes no out-of-range access, and it returns [true] exactly when the
    keys agree on bind offsets, runtime info, fetch-shader data, vertex
    attributes, read-constant flag and samplers, and on every tracked entry
    whose bit is set in the cached key. *)
Theorem Equal_refines_keys_match (candidate cached : StageSpecialization) :
  same_shape candidate cached ->
  slots candidate <= MaxStageResources ->
  (Equal candidate cached = Some true <-> keys_match candidate cached) /\
  (Equal candidate cached = Some false <-> ~ keys_match candidate cached).
Proof.
  intros Hshape Hcap.
  destruct (Equal_cases candidate cached Hshape Hcap)
    as [[-> Hm] | [-> Hm]]; split; split; done.
Qed.

(** X2. The ungated head of [operator==]: a difference in the bind offsets,
    in the runtime info or in the fetch-shader data returns [false] before
    any list is indexed, for keys of any shape and size; and when the cached
    key has at least as many vertex attributes as the candidate, two
    different attribute entries at one index return [false] whatever the
    bitsets and the tracked entries are. *)
Theorem Equal_false_on_header_difference
    (candidate cached : StageSpecialization) :
  (start candidate <> start cached \/
   runtime_info candidate <> runtime_info cached \/
   fetch_shader_data candidate <> fetch_shader_data cached ->
   Equal candidate cached = Some false) /\
  ((length (vs_attribs candidate) <= length (vs_attribs cached))%nat ->
   forall (i : nat) (x y : VsAttribSpecialization),
     vs_attribs candidate !! i = Some x -> vs_attribs cached !! i = Some y ->
     vs_num_class x <> vs_num_class y ->
     Equal candidate cached = Some false).
Proof.
  unfold Equal, StageSpecialization_eq, StageSpecialization_eq_state.
  split.
  - intros Hdiff.
    case_bool_decide; cbn [negb return_false_if Flow_bind]; [| done].
    case_bool_decide; cbn [negb return_false_if Flow_bind]; [| done].
    case_bool_decide; cbn [negb return_false_if Flow_bind]; [| done].
    tauto.
  - intros Hlen i x y Hx Hy Hne.
    case_bool_decide; cbn [negb return_false_if Flow_bind]; [| done].
    case_bool_decide; cbn [negb return_false_if Flow_bind]; [| done].
    case_bool_decide; cbn [negb return_false_if Flow_bind]; [| done].
    destruct (compare_each_spec VsAttribSpecialization_eq
                (vs_attribs candidate) (vs_attribs cached) 0)
      as [[_ Hall] | [-> _]]; [simpl; lia | | done].
    specialize (Hall i x y Hx Hy).
    apply VsAttribSpecialization_eq_true in Hall. by subst.
Qed.

(** X3. The comparison is symmetric between keys of identical shape whose
    bitsets agree on the tracked slots. *)
Theorem Equal_symmetric_on_equal_bitsets (a b : StageSpecialization) :
  same_shape a b ->
  slots a <= MaxStageResources ->
  (forall p, p < slots a -> N.testbit (bitset a) p = N.testbit (bitset b) p) ->
  Equal a b = Equal b a.
Proof.
  intros Hshape Hcap Hbits.
  pose proof (same_shape_sym a b Hshape) as Hshape'.
  destruct (decide (Info_has_readconst (info a)
                    = Info_has_readconst (info b))) as [Hrc | Hrc].
  - destruct (slot_positions_agree a b Hshape Hrc) as (_ & _ & _ & _ & Hs).
    destruct (Equal_cases a b Hshape Hcap) as [[-> Hab] | [-> Hab]];
      (destruct (Equal_cases b a Hshape') as [[-> Hba] | [-> Hba]];
       [by rewrite <- Hs | | ]); try done.
    + destruct Hba. by apply keys_match_sym.
    + destruct Hab. apply keys_match_sym; [done | | done].
      intros p Hp. symmetry. apply Hbits. by rewrite Hs.
  - destruct Hshape as (Hvs & _).
    rewrite !Equal_readconst_differs; done.
Qed.

(** X4. Only the cached key's bitset is read: the candidate's bitset never
    changes the result, and clearing bits of the cached key never turns a
    match into a mismatch, for keys of any shape and size. *)
Theorem Equal_reads_only_cached_bits
    (candidate cached : StageSpecialization) (bits : N) :
  Equal (with_bitset candidate bits) cached = Equal candidate cached /\
  ((forall p, N.testbit bits p = true ->
              N.testbit (bitset cached) p = true) ->
   Equal candidate cached = Some true ->
   Equal candidate (with_bitset cached bits) = Some true).
Proof.
  split; [reflexivity |].
  intros Hsub. unfold Equal, StageSpecialization_eq.
  destruct (StageSpecialization_eq_state candidate cached)
    as [b | r |] eqn:Hrun; [intros _ | | done].
  - by rewrite (StageSpecialization_eq_state_fewer_bits _ _ _ _ Hsub Hrun).
  - apply StageSpecialization_eq_state_Return in Hrun as ->. done.
Qed.

(** X5. The comparison composes: if [a] matches [b] and [b] matches [c],
    all of one shape, and every bit set in [c] is set in [b], then [a]
    matches [c]. *)
Theorem Equal_transitive (a b c : StageSpecialization) :
  same_shape a b -> same_shape b c ->
  slots a <= MaxStageResources ->
  (forall p, N.testbit (bitset c) p = true -> N.testbit (bitset b) p = true) ->
  Equal a b = Some true -> Equal b c = Some true ->
  Equal a c = Some true.
Proof.
  intros Hab Hbc Hcap Hsub Heq1 Heq2.
  destruct (Equal_cases a b Hab Hcap) as [[_ Hm1] | [Hne _]];
    [| congruence].
  destruct Hm1 as (Hst & Hrt & Hfe & Hvs & Hrc & Hb & Ht & Hi & Hf & Hsm).
  destruct (slot_positions_agree a b Hab Hrc) as (Pb & Pt & Pi & Pf & Hs).
  destruct (Equal_cases b c Hbc) as [[_ Hm2] | [Hne _]];
    [by rewrite <- Hs | | congruence].
  destruct Hm2
    as (Hst' & Hrt' & Hfe' & Hvs' & Hrc' & Hb' & Ht' & Hi' & Hf' & Hsm').
  assert (Hac : same_shape a c).
  { unfold same_shape in *. intuition congruence. }
  destruct (Equal_cases a c Hac Hcap) as [[-> _] | [_ Hnm]]; [done |].
  destruct Hnm. destruct Hab as (Lv & Lb & Lt & Li & Lf & Ls).
  unfold keys_match. repeat split; try congruence.
  - eapply entries_match_trans; [| exact Lv | exact Hvs | exact Hvs'].
    intros x y z. rewrite !VsAttribSpecialization_eq_true. congruence.
  - eapply slots_match_trans;
      [apply BufferSpecialization_eq_trans | exact Lb | | exact Hsub
      | exact Hb | exact Hb'].
    intros j. symmetry. apply Pb.
  - eapply slots_match_trans;
      [| exact Lt | | exact Hsub | exact Ht | exact Ht'].
    + intros x y z. rewrite !TextureBufferSpecialization_eq_true. congruence.
    + intros j. symmetry. apply Pt.
  - eapply slots_match_trans;
      [| exact Li | | exact Hsub | exact Hi | exact Hi'].
    + intros x y z. rewrite !ImageSpecialization_eq_true. congruence.
    + intros j. symmetry. apply Pi.
  - eapply slots_match_trans;
      [| exact Lf | | exact Hsub | exact Hf | exact Hf'].
    + intros x y z. rewrite !FMaskSpecialization_eq_true. congruence.
    + intros j. symmetry. apply Pf.
  - eapply entries_match_trans; [| exact Ls | exact Hsm | exact Hsm'].
    intros x y z. rewrite !SamplerSpecialization_eq_true. congruence.
Qed.

End ComparatorRelationTheorems.

(** * More on the constructor *)

Section ForEachSharpOverflow.
Context `{Runtime} {Desc Sharp Spec : Type}.
Variable info_ : Info.
Variable GetSharp : Desc -> Info -> Sharp.
Variable valid : Sharp -> bool.
Variable value_init : Spec.
Variable func : Spec -> Desc -> Sharp -> Spec.

(** A resolved descriptor at an index past the capacity makes the loop
    throw. *)
Lemma ForEachSharp_binding_overflow (desc_list : list Desc)
    (binding bits : N) (spec_list : list Spec) (i : nat) (d : Desc) :
  binding + N.of_nat (length desc_list) < u32_max ->
  desc_list !! i = Some d ->
  resolved info_ GetSharp valid d = true ->
  MaxStageResources <= binding + N.of_nat i ->
  ForEachSharp_binding info_ GetSharp valid value_init func
    binding bits spec_list desc_list = None.
Proof.
  revert binding bits spec_list i.
  induction desc_list as [| d0 rest IH];
    intros binding bits spec_list i Hcap Hd Hres Hge; [done |].
  simpl in Hcap. simpl. rewrite incr_no_wrap by lia.
  destruct i as [| i]; simpl in Hd.
  - injection Hd as ->. unfold resolved in Hres. rewrite Hres. simpl.
    unfold bitset_set. rewrite decide_False; [done | lia].
  - destruct (negb (valid (GetSharp d0 info_))).
    + apply (IH _ _ _ i); [lia | done | done | lia].
    + destruct (bitset_set bits binding); [| done].
      apply (IH _ _ _ i); [lia | done | done | lia].
Qed.

Lemma entry_of_lookup (desc_list : list Desc) (i : nat) (d : Desc) :
  desc_list !! i = Some d ->
  map (entry_of info_ GetSharp valid value_init func) desc_list !! i =
  Some (if valid (GetSharp d info_)
        then func value_init d (GetSharp d info_) else value_init).
Proof.
  intros Hd. rewrite list_lookup_fmap, Hd. simpl. unfold entry_of.
  by destruct (valid (GetSharp d info_)).
Qed.

End ForEachSharpOverflow.

Section ConstructorMore.
Context `{Runtime}.

Ltac unfold_bindings :=
  unfold tracked_slots, fmask_binding, image_binding, tex_buffer_binding,
    buffer_binding, first_binding in *.

(** X6. A built key is aligned with its provider: every sequence has the
    length of the provider's descriptor list, and the entry at an index is
    the filled record when the descriptor at that index resolved and the
    value-initialised record when it did not. *)
Theorem built_entries_aligned (info_ : Info) (rt : RuntimeInfo) (p : Profile)
    (s : Bindings) (A : StageSpecialization) :
  Build info_ rt p s = Some A ->
  (length (buffers A) = length (Info_buffers info_) /\
   length (tex_buffers A) = length (Info_texture_buffers info_) /\
   length (images A) = length (Info_images info_) /\
   length (fmasks A) = length (Info_fmasks info_) /\
   length (samplers A) = length (Info_samplers info_)) /\
  (forall i d, Info_buffers info_ !! i = Some d ->
     buffers A !! i =
     Some (if Buffer_valid (BufferResource_GetSharp d info_)
           then fill_buffer BufferSpecialization_default d
                  (BufferResource_GetSharp d info_)
           else BufferSpecialization_default)) /\
  (forall i d, Info_texture_buffers info_ !! i = Some d ->
     tex_buffers A !! i =
     Some (if Buffer_valid (TextureBufferResource_GetSharp d info_)
           then fill_tex_buffer TextureBufferSpecialization_default d
                  (TextureBufferResource_GetSharp d info_)
           else TextureBufferSpecialization_default)) /\
  (forall i d, Info_images info_ !! i = Some d ->
     images A !! i =
     Some (if Image_valid (ImageResource_GetSharp d info_)
           then fill_image ImageSpecialization_default d
                  (ImageResource_GetSharp d info_)
           else ImageSpecialization_default)) /\
  (forall i d, Info_fmasks info_ !! i = Some d ->
     fmasks A !! i =
     Some (if Image_valid (FMaskResource_GetSharp d info_)
           then fill_fmask FMaskSpecialization_default d
                  (FMaskResource_GetSharp d info_)
           else FMaskSpecialization_default)) /\
  (forall i d, Info_samplers info_ !! i = Some d ->
     samplers A !! i =
     Some (if Sampler_valid (SamplerResource_GetSharp d info_)
           then fill_sampler SamplerSpecialization_default d
                  (SamplerResource_GetSharp d info_)
           else SamplerSpecialization_default)).
Proof.
  intros HA.
  apply StageSpecialization_ctor_entries in HA
    as (_ & _ & _ & _ & -> & -> & -> & -> & ->).
  split; [by rewrite !length_map |].
  repeat split; intros i d Hd; by apply entry_of_lookup.
Qed.

(** X7. With fewer than [2^32] tracked slots the constructor throws exactly
    when some resolved buffer, texture-buffer, image or fmask descriptor has
    a binding index of 64 or more; unresolved descriptors past the capacity
    are harmless. *)
Theorem ctor_throws_iff (info_ : Info) (rt : RuntimeInfo) (p : Profile)
    (s : Bindings) :
  tracked_slots info_ < u32_max ->
  Build info_ rt p s = None <->
  (exists i d, Info_buffers info_ !! i = Some d /\
     Buffer_valid (BufferResource_GetSharp d info_) = true /\
     MaxStageResources <= buffer_binding info_ i) \/
  (exists i d, Info_texture_buffers info_ !! i = Some d /\
     Buffer_valid (TextureBufferResource_GetSharp d info_) = true /\
     MaxStageResources <= tex_buffer_binding info_ i) \/
  (exists i d, Info_images info_ !! i = Some d /\
     Image_valid (ImageResource_GetSharp d info_) = true /\
     MaxStageResources <= image_binding info_ i) \/
  (exists i d, Info_fmasks info_ !! i = Some d /\
     Image_valid (FMaskResource_GetSharp d info_) = true /\
     MaxStageResources <= fmask_binding info_ i).
Proof.
  intros Hcap.
  unfold Build, StageSpecialization_ctor, StageSpecialization_ctor_state.
  cbv zeta. rewrite first_binding_incr.
  destruct (ForEachSharp_binding _ BufferResource_GetSharp _ _ _ _ _ _ _)
    as [[[b1 bits1] l1] |] eqn:E1; cycle 1.
  { split; [intros _ | done]. left.
    apply ForEachSharp_binding_None in E1; [done |].
    unfold_bindings. lia. }
  pose proof E1 as E1'.
  apply ForEachSharp_binding_Some in E1' as (-> & _);
    [| unfold_bindings; lia].
  cbn [mbind option_bind].
  destruct (ForEachSharp_binding _ TextureBufferResource_GetSharp _ _ _ _ _ _ _)
    as [[[b2 bits2] l2] |] eqn:E2; cycle 1.
  { split; [intros _ | done]. right. left.
    apply ForEachSharp_binding_None in E2; [done |].
    unfold_bindings. lia. }
  pose proof E2 as E2'.
  apply ForEachSharp_binding_Some in E2' as (-> & _);
    [| unfold_bindings; lia].
  cbn [mbind option_bind].
  destruct (ForEachSharp_binding _ ImageResource_GetSharp _ _ _ _ _ _ _)
    as [[[b3 bits3] l3] |] eqn:E3; cycle 1.
  { split; [intros _ | done]. right. right. left.
    apply ForEachSharp_binding_None in E3; [done |].
    unfold_bindings. lia. }
  pose proof E3 as E3'.
  apply ForEachSharp_binding_Some in E3' as (-> & _);
    [| unfold_bindings; lia].
  cbn [mbind option_bind].
  destruct (ForEachSharp_binding _ FMaskResource_GetSharp _ _ _ _ _ _ _)
    as [[[b4 bits4] l4] |] eqn:E4; cycle 1.
  { split; [intros _ | done]. right. right. right.
    apply ForEachSharp_binding_None in E4; [done |].
    unfold_bindings. lia. }
  cbn [mbind option_bind fmap option_fmap option_map].
  split; [done |].
  intros [(i & d & Hd & Hv & Hge) | [(i & d & Hd & Hv & Hge)
    | [(i & d & Hd & Hv & Hge) | (i & d & Hd & Hv & Hge)]]];
    pose proof (lookup_lt_Some _ _ _ Hd) as Hi.
  - erewrite ForEachSharp_binding_overflow in E1; [done | | exact Hd | exact Hv
      | exact Hge]. unfold_bindings. lia.
  - erewrite ForEachSharp_binding_overflow in E2; [done | | exact Hd | exact Hv
      | exact Hge]. unfold_bindings. lia.
  - erewrite ForEachSharp_binding_overflow in E3; [done | | exact Hd | exact Hv
      | exact Hge]. unfold_bindings. lia.
  - erewrite ForEachSharp_binding_overflow in E4; [done | | exact Hd | exact Hv
      | exact Hge]. unfold_bindings. lia.
Qed.

End ConstructorMore.

(** * Constructor and comparator together *)

Section Composition.
Context `{Runtime}.

Ltac unfold_slots :=
  unfold slots, fmask_slot, image_slot, tex_buffer_slot, buffer_slot,
    first_binding in *.

Ltac key_fields :=
  cbn [info runtime_info fetch_shader_data vs_attribs bitset buffers
       tex_buffers images fmasks samplers start].

Ltac enter_comparison :=
  unfold Equal, StageSpecialization_eq;
  match goal with
  | |- match ?a with _ => _ end = match ?b with _ => _ end =>
      cut (a = b); [by intros -> |]
  end;
  unfold StageSpecialization_eq_state, with_buffers, with_tex_buffers,
    with_images, with_fmasks;
  key_fields; cbv zeta; rewrite first_binding_incr;
  repeat (apply Flow_bind_ext_Next; intros ? ?);
  repeat match goal with
         | E : compare_gated _ _ _ _ _ _ = Next _ |- _ =>
             apply compare_gated_Next in E; subst
         end.

(** The candidate's entry at a slot whose bit is unset in the cached key is
    not read. *)
Lemma Equal_candidate_insert (candidate cached : StageSpecialization) :
  (forall (j : nat) (r : BufferSpecialization),
     N.testbit (bitset cached) (buffer_slot candidate j) = false ->
     Equal (with_buffers candidate (<[j:=r]> (buffers candidate))) cached
       = Equal candidate cached) /\
  (forall (j : nat) (r : TextureBufferSpecialization),
     N.testbit (bitset cached) (tex_buffer_slot candidate j) = false ->
     Equal (with_tex_buffers candidate (<[j:=r]> (tex_buffers candidate)))
       cached = Equal candidate cached) /\
  (forall (j : nat) (r : ImageSpecialization),
     N.testbit (bitset cached) (image_slot candidate j) = false ->
     Equal (with_images candidate (<[j:=r]> (images candidate))) cached
       = Equal candidate cached) /\
  (forall (j : nat) (r : FMaskSpecialization),
     N.testbit (bitset cached) (fmask_slot candidate j) = false ->
     Equal (with_fmasks candidate (<[j:=r]> (fmasks candidate))) cached
       = Equal candidate cached).
Proof.
  repeat split; intros j r Hbit; enter_comparison;
    by rewrite compare_gated_insert.
Qed.

(** The comparator's positions on a built key are the construction's binding
    indices. *)
Lemma built_positions (info_ : Info) (rt : RuntimeInfo) (p : Profile)
    (s : Bindings) (A : StageSpecialization) :
  Build info_ rt p s = Some A ->
  forall i : nat,
    buffer_slot A i = buffer_binding info_ i /\
    tex_buffer_slot A i = tex_buffer_binding info_ i /\
    image_slot A i = image_binding info_ i /\
    fmask_slot A i = fmask_binding info_ i.
Proof.
  intros HA i.
  apply StageSpecialization_ctor_entries in HA
    as (Hi & _ & _ & _ & Hb & Ht & Him & _).
  unfold fmask_slot, image_slot, tex_buffer_slot, buffer_slot,
    fmask_binding, image_binding, tex_buffer_binding, buffer_binding.
  by rewrite Hi, Hb, Ht, Him, !length_map.
Qed.

(** X8. A descriptor that did not resolve when the cached key was built
    never takes part in a comparison against that key: whatever record the
    candidate holds at its slot, the result is the same. *)
Theorem unresolved_slot_never_compared (info_ : Info) (rt : RuntimeInfo)
    (p : Profile) (s : Bindings) (cached candidate : StageSpecialization) :
  Build info_ rt p s = Some cached ->
  tracked_slots info_ < u32_max ->
  same_shape candidate cached ->
  (forall i d r, Info_buffers info_ !! i = Some d ->
     Buffer_valid (BufferResource_GetSharp d info_) = false ->
     Equal (with_buffers candidate (<[i:=r]> (buffers candidate))) cached
       = Equal candidate cached) /\
  (forall i d r, Info_texture_buffers info_ !! i = Some d ->
     Buffer_valid (TextureBufferResource_GetSharp d info_) = false ->
     Equal (with_tex_buffers candidate (<[i:=r]> (tex_buffers candidate)))
       cached = Equal candidate cached) /\
  (forall i d r, Info_images info_ !! i = Some d ->
     Image_valid (ImageResource_GetSharp d info_) = false ->
     Equal (with_images candidate (<[i:=r]> (images candidate))) cached
       = Equal candidate cached) /\
  (forall i d r, Info_fmasks info_ !! i = Some d ->
     Image_valid (FMaskResource_GetSharp d info_) = false ->
     Equal (with_fmasks candidate (<[i:=r]> (fmasks candidate))) cached
       = Equal candidate cached).
Proof.
  intros HK Hcap Hshape.
  destruct (built_bitset _ _ _ _ _ Hcap HK) as (Bb & Bt & Bi & Bf & _).
  destruct (Equal_candidate_insert candidate cached) as (Ib & It & Ii & If).
  destruct (decide (Info_has_readconst (info candidate)
                    = Info_has_readconst (info cached))) as [Hrc | Hrc].
  - destruct (slot_positions_agree _ _ Hshape Hrc) as (Pb & Pt & Pi & Pf & _).
    repeat split; intros i d r Hd Hv.
    + apply Ib. rewrite Pb, (proj1 (built_positions _ _ _ _ _ HK i)).
      by rewrite (Bb i d Hd).
    + apply It. rewrite Pt.
      rewrite (proj1 (proj2 (built_positions _ _ _ _ _ HK i))).
      by rewrite (Bt i d Hd).
    + apply Ii. rewrite Pi.
      rewrite (proj1 (proj2 (proj2 (built_positions _ _ _ _ _ HK i)))).
      by rewrite (Bi i d Hd).
    + apply If. rewrite Pf.
      rewrite (proj2 (proj2 (proj2 (built_positions _ _ _ _ _ HK i)))).
      by rewrite (Bf i d Hd).
  - destruct Hshape as (Hvs & _).
    repeat split; intros i d r Hd Hv;
      rewrite !Equal_readconst_differs; done.
Qed.

(** X9. A match against a built key pins the candidate at every slot that
    resolved when the key was built: a buffer has the stride (in 14 bits)
    and the storage flag of the cached sharp, and a texture buffer, image
    or fmask has exactly the record filled from the cached sharp. *)
Theorem match_pins_resolved_slots (info_ : Info) (rt : RuntimeInfo)
    (p : Profile) (s : Bindings) (cached candidate : StageSpecialization) :
  Build info_ rt p s = Some cached ->
  same_shape candidate cached ->
  slots candidate <= MaxStageResources ->
  Equal candidate cached = Some true ->
  (forall i d x, Info_buffers info_ !! i = Some d ->
     Buffer_valid (BufferResource_GetSharp d info_) = true ->
     buffers candidate !! i = Some x ->
     buf_stride x = Buffer_GetStride (BufferResource_GetSharp d info_)
                      mod 2 ^ 14 /\
     buf_is_storage x =
       BufferResource_IsStorage d (BufferResource_GetSharp d info_)) /\
  (forall i d x, Info_texture_buffers info_ !! i = Some d ->
     Buffer_valid (TextureBufferResource_GetSharp d info_) = true ->
     tex_buffers candidate !! i = Some x ->
     x = fill_tex_buffer TextureBufferSpecialization_default d
           (TextureBufferResource_GetSharp d info_)) /\
  (forall i d x, Info_images info_ !! i = Some d ->
     Image_valid (ImageResource_GetSharp d info_) = true ->
     images candidate !! i = Some x ->
     x = fill_image ImageSpecialization_default d
           (ImageResource_GetSharp d info_)) /\
  (forall i d x, Info_fmasks info_ !! i = Some d ->
     Image_valid (FMaskResource_GetSharp d info_) = true ->
     fmasks candidate !! i = Some x ->
     x = fill_fmask FMaskSpecialization_default d
           (FMaskResource_GetSharp d info_)).
Proof.
  intros HK Hshape Hcap Heq.
  destruct (Equal_cases candidate cached Hshape Hcap)
    as [[_ Hm] | [Hne _]]; [| congruence].
  destruct Hm as (_ & _ & _ & _ & Hrc & Mb & Mt & Mi & Mf & _).
  destruct (slot_positions_agree _ _ Hshape Hrc) as (Pb & Pt & Pi & Pf & Hs).
  assert (Hcap' : tracked_slots info_ < u32_max).
  { rewrite <- (built_slots _ _ _ _ _ HK), <- Hs.
    unfold u32_max, MaxStageResources in *. lia. }
  destruct (built_bitset _ _ _ _ _ Hcap' HK) as (Bb & Bt & Bi & Bf & _).
  pose proof (StageSpecialization_ctor_entries _ _ _ _ _ HK)
    as (_ & _ & _ & _ & Eb & Et & Ei & Ef & _).
  split; [| split; [| split]]; intros i d x Hd Hv Hx.
  - assert (Hy := entry_of_lookup info_ BufferResource_GetSharp Buffer_valid
                    BufferSpecialization_default fill_buffer _ i d Hd).
    rewrite Hv in Hy. fold (buffer_entry info_) in Hy. rewrite <- Eb in Hy.
    specialize (Mb i x _ Hx Hy).
    rewrite Pb, (proj1 (built_positions _ _ _ _ _ HK i)) in Mb.
    rewrite (Bb i d Hd), Hv in Mb. specialize (Mb eq_refl).
    by apply BufferSpecialization_eq_true in Mb.
  - assert (Hy := entry_of_lookup info_ TextureBufferResource_GetSharp
                    Buffer_valid TextureBufferSpecialization_default
                    fill_tex_buffer _ i d Hd).
    rewrite Hv in Hy. fold (tex_buffer_entry info_) in Hy.
    rewrite <- Et in Hy. specialize (Mt i x _ Hx Hy).
    rewrite Pt in Mt.
    rewrite (proj1 (proj2 (built_positions _ _ _ _ _ HK i))) in Mt.
    rewrite (Bt i d Hd), Hv in Mt. specialize (Mt eq_refl).
    by apply TextureBufferSpecialization_eq_true in Mt.
  - assert (Hy := entry_of_lookup info_ ImageResource_GetSharp
                    Image_valid ImageSpecialization_default
                    fill_image _ i d Hd).
    rewrite Hv in Hy. fold (image_entry info_) in Hy.
    rewrite <- Ei in Hy. specialize (Mi i x _ Hx Hy).
    rewrite Pi in Mi.
    rewrite (proj1 (proj2 (proj2 (built_positions _ _ _ _ _ HK i)))) in Mi.
    rewrite (Bi i d Hd), Hv in Mi. specialize (Mi eq_refl).
    by apply ImageSpecialization_eq_true in Mi.
  - assert (Hy := entry_of_lookup info_ FMaskResource_GetSharp
                    Image_valid FMaskSpecialization_default
                    fill_fmask _ i d Hd).
    rewrite Hv in Hy. fold (fmask_entry info_) in Hy.
    rewrite <- Ef in Hy. specialize (Mf i x _ Hx Hy).
    rewrite Pf in Mf.
    rewrite (proj2 (proj2 (proj2 (built_positions _ _ _ _ _ HK i)))) in Mf.
    rewrite (Bf i d Hd), Hv in Mf. specialize (Mf eq_refl).
    by apply FMaskSpecialization_eq_true in Mf.
Qed.

End Composition.

Section ProfileGate.
Context `{Runtime}.

(** X10. The profile is not stored and reaches nothing but [vs_attribs]:
    two profiles that agree on legacy vertex attributes, or any two profiles
    for a stage that is not vertex or has no fetch shader, give the same
    result; and in general the keys built under two profiles are equal up
    to their [vs_attribs], one throwing exactly when the other does. *)
Theorem profile_gates_only_vs_attribs (info_ : Info) (rt : RuntimeInfo)
    (p p' : Profile) (s : Bindings) :
  (support_legacy_vertex_attributes p = support_legacy_vertex_attributes p' \/
   Info_stage info_ <> Vertex \/ ParseFetchShader info_ = None ->
   Build info_ rt p s = Build info_ rt p' s) /\
  (forall A, Build info_ rt p s = Some A ->
     exists A', Build info_ rt p' s = Some A' /\
                A = with_vs_attribs A' (vs_attribs A)) /\
  (Build info_ rt p s = None -> Build info_ rt p' s = None).
Proof.
  unfold Build, StageSpecialization_ctor, StageSpecialization_ctor_state.
  cbv zeta. split; [| split].
  - intros [Hleg | [Hst | Hno]].
    + by rewrite Hleg.
    + rewrite (bool_decide_eq_false_2 _ Hst). cbn [andb].
      by destruct (ParseFetchShader info_).
    + by rewrite Hno.
  - intros A.
    destruct (ForEachSharp_binding _ BufferResource_GetSharp _ _ _ _ _ _ _)
      as [[[b1 bits1] l1] |]; [| done].
    cbn [mbind option_bind].
    destruct (ForEachSharp_binding _ TextureBufferResource_GetSharp
                _ _ _ _ _ _ _) as [[[b2 bits2] l2] |]; [| done].
    cbn [mbind option_bind].
    destruct (ForEachSharp_binding _ ImageResource_GetSharp _ _ _ _ _ _ _)
      as [[[b3 bits3] l3] |]; [| done].
    cbn [mbind option_bind].
    destruct (ForEachSharp_binding _ FMaskResource_GetSharp _ _ _ _ _ _ _)
      as [[[b4 bits4] l4] |]; [| done].
    cbn [mbind option_bind fmap option_fmap option_map snd].
    intros [= <-]. eexists. split; [reflexivity |]. reflexivity.
  - destruct (ForEachSharp_binding _ BufferResource_GetSharp _ _ _ _ _ _ _)
      as [[[b1 bits1] l1] |]; [| done].
    cbn [mbind option_bind].
    destruct (ForEachSharp_binding _ TextureBufferResource_GetSharp
                _ _ _ _ _ _ _) as [[[b2 bits2] l2] |]; [| done].
    cbn [mbind option_bind].
    destruct (ForEachSharp_binding _ ImageResource_GetSharp _ _ _ _ _ _ _)
      as [[[b3 bits3] l3] |]; [| done].
    cbn [mbind option_bind].
    destruct (ForEachSharp_binding _ FMaskResource_GetSharp _ _ _ _ _ _ _)
      as [[[b4 bits4] l4] |]; [| done].
    cbn [mbind option_bind fmap option_fmap option_map snd]. done.
Qed.

End ProfileGate.

(** ** The further theorems on the sample providers *)

Lemma Equal_refines_keys_match_witness :
  Equal (demo_key (demo_buffer_provider true 16))
        (demo_key (demo_buffer_provider false 0)) = Some true /\
  keys_match (demo_key (demo_buffer_provider true 16))
             (demo_key (demo_buffer_provider false 0)).
Proof.
  split; [reflexivity |].
  apply (@Equal_refines_keys_match _ _ demo_Runtime
           (demo_key (demo_buffer_provider true 16))
           (demo_key (demo_buffer_provider false 0))).
  - by repeat split.
  - by vm_compute.
  - reflexivity.
Defined.

Lemma Equal_false_on_header_difference_witness :
  Equal (demo_key_start (demo_buffer_provider true 16) 1)
        (demo_key (demo_buffer_provider true 16)) = Some false /\
  Equal (demo_key demo_vertex_info)
        (with_vs_attribs (demo_key demo_vertex_info)
           [{| vs_num_class := 2 |}]) = Some false.
Proof.
  split.
  - apply (@Equal_false_on_header_difference _ _ demo_Runtime
             (demo_key_start (demo_buffer_provider true 16) 1)
             (demo_key (demo_buffer_provider true 16))).
    left. by vm_compute.
  - refine (proj2 (@Equal_false_on_header_difference _ _ demo_Runtime
                     (demo_key demo_vertex_info)
                     (with_vs_attribs (demo_key demo_vertex_info)
                        [{| vs_num_class := 2 |}]))
              _ 0%nat _ _ eq_refl eq_refl _); by vm_compute.
Defined.

Lemma Equal_symmetric_on_equal_bitsets_witness :
  Equal (demo_key (demo_buffer_provider true 16))
        (demo_key (demo_buffer_provider true 32))
  = Equal (demo_key (demo_buffer_provider true 32))
          (demo_key (demo_buffer_provider true 16)).
Proof.
  apply (@Equal_symmetric_on_equal_bitsets _ _ demo_Runtime).
  - by repeat split.
  - by vm_compute.
  - intros q _. reflexivity.
Defined.

Lemma Equal_reads_only_cached_bits_witness :
  Equal (demo_key (demo_buffer_provider true 16))
        (demo_key (demo_buffer_provider true 16)) = Some true /\
  Equal (demo_key (demo_buffer_provider true 16))
        (with_bitset (demo_key (demo_buffer_provider true 16)) 0)
  = Some true.
Proof.
  split; [reflexivity |].
  apply (@Equal_reads_only_cached_bits _ _ demo_Runtime
           (demo_key (demo_buffer_provider true 16))
           (demo_key (demo_buffer_provider true 16)) 0).
  - intros q Hq. by rewrite N.bits_0 in Hq.
  - reflexivity.
Defined.

Lemma Equal_transitive_witness :
  Equal (demo_key (demo_buffer_provider true 16))
        (demo_key (demo_buffer_provider false 0)) = Some true.
Proof.
  apply (@Equal_transitive _ _ demo_Runtime
           (demo_key (demo_buffer_provider true 16))
           (demo_key (demo_buffer_provider true 16))
           (demo_key (demo_buffer_provider false 0))).
  - by repeat split.
  - by repeat split.
  - by vm_compute.
  - intros q Hq. by rewrite N.bits_0 in Hq.
  - reflexivity.
  - reflexivity.
Defined.

Lemma built_entries_aligned_witness :
  Build demo_vertex_info 0 false 0 = Some (demo_key demo_vertex_info) /\
  length (buffers (demo_key demo_vertex_info)) = 3%nat /\
  buffers (demo_key demo_vertex_info) !! 1%nat
    = Some BufferSpecialization_default.
Proof.
  split; [reflexivity |].
  destruct (@built_entries_aligned _ _ demo_Runtime demo_vertex_info 0 false
              0 (demo_key demo_vertex_info) eq_refl)
    as ((Hlen & _) & Hbuf & _).
  split; [exact Hlen |].
  exact (Hbuf 1%nat (demo_buffer false 0 0 false) eq_refl).
Defined.

Lemma ctor_throws_iff_witness :
  tracked_slots demo_crowded_info < u32_max /\
  Build demo_crowded_info 0 false 0 = None.
Proof.
  split; [reflexivity |].
  apply (@ctor_throws_iff _ _ demo_Runtime demo_crowded_info 0 false 0);
    [reflexivity |].
  left. exists 64%nat, (demo_buffer true 4 4 false).
  split; [reflexivity |]. split; [reflexivity | by vm_compute].
Defined.

Lemma unresolved_slot_never_compared_witness :
  Equal (with_buffers (demo_key (demo_buffer_provider true 16))
           (<[0%nat := {| buf_stride := 48; buf_is_storage := true;
                          buf_size := 0 |}]>
              (buffers (demo_key (demo_buffer_provider true 16)))))
        (demo_key (demo_buffer_provider false 0))
  = Equal (demo_key (demo_buffer_provider true 16))
          (demo_key (demo_buffer_provider false 0)).
Proof.
  destruct (@unresolved_slot_never_compared _ _ demo_Runtime
              (demo_buffer_provider false 0) 0 false 0
              (demo_key (demo_buffer_provider false 0))
              (demo_key (demo_buffer_provider true 16)) eq_refl eq_refl)
    as [Hbuf _]; [by repeat split |].
  exact (Hbuf 0%nat (demo_buffer false 0 1024 false) _ eq_refl eq_refl).
Defined.

Lemma match_pins_resolved_slots_witness :
  buffers (demo_key (demo_buffer_provider true 16)) !! 0%nat
    = Some {| buf_stride := 16; buf_is_storage := false; buf_size := 1024 |}
  /\ buf_stride {| buf_stride := 16; buf_is_storage := false;
                   buf_size := 1024 |} = 16 mod 2 ^ 14.
Proof.
  split; [reflexivity |].
  destruct (@match_pins_resolved_slots _ _ demo_Runtime
              (demo_buffer_provider true 16) 0 false 0
              (demo_key (demo_buffer_provider true 16))
              (demo_key (demo_buffer_provider true 16)) eq_refl)
    as [Hbuf _]; [by repeat split | by vm_compute | reflexivity |].
  exact (proj1 (Hbuf 0%nat (demo_buffer true 16 1024 false) _
                  eq_refl eq_refl eq_refl)).
Defined.

Lemma profile_gates_only_vs_attribs_witness :
  Build (demo_buffer_provider true 16) 0 false 0
  = Build (demo_buffer_provider true 16) 0 true 0.
Proof.
  apply (@profile_gates_only_vs_attribs _ _ demo_Runtime
           (demo_buffer_provider true 16) 0 false true 0).
  right. left. by vm_compute.
Defined.

Lemma GetAxis_range_and_endpoints_witness :
  GetAxis (-32768) 32767 (-32768) = Some 0%Z /\
  GetAxis (-32768) 32767 32767 = Some 255%Z /\
  GetAxis 32767 (-32768) 32767 = Some 0%Z /\
  (0 <= 127 <= 255)%Z.
Proof.
  destruct (GetAxis_range_and_endpoints (-32768) 32767)
    as (Hrange & Hmin & Hmax).
  destruct (GetAxis_range_and_endpoints 32767 (-32768)) as (_ & Hmin' & _).
  split; [apply Hmin; by vm_compute |].
  split; [apply Hmax; by vm_compute |].
  split; [apply Hmin'; by vm_compute |].
  apply (Hrange 0%Z 127%Z). reflexivity.
Defined.

Lemma GetAxis_piecewise_witness :
  GetAxis (-32768) 32767 0 = Some 127%Z /\
  (127 = 255 * (0 - -32768) / (32767 - -32768))%Z.
Proof.
  split; [reflexivity |].
  apply (GetAxis_piecewise (-32768) 32767 0 127); by vm_compute.
Defined.

Lemma GetAxis_monotone_witness :
  GetAxis (-32768) 32767 (-20000) = Some 49%Z /\
  GetAxis (-32768) 32767 20000 = Some 205%Z /\
  (49 <= 205)%Z.
Proof.
  split; [reflexivity |]. split; [reflexivity |].
  refine (proj1 (GetAxis_monotone (-32768) 32767 (-20000) 20000 49 205
                   _ eq_refl eq_refl) _); by vm_compute.
Defined.

(** * The comparator's counter and the constructor's *)

Section CounterAgreement.
Context `{Runtime}.

(** When the bit at each entry's position records whether its descriptor
    resolved, a gated loop compares exactly the entries of the resolved
    descriptors. *)
Lemma slots_match_resolved {Desc Spec : Type} (eq_op : Spec -> Spec -> bool)
    (bits : N) (pos : nat -> N) (descs : list Desc) (is_valid : Desc -> bool)
    (mine theirs : list Spec) :
  length theirs = length descs ->
  (forall i d, descs !! i = Some d -> N.testbit bits (pos i) = is_valid d) ->
  slots_match eq_op bits pos mine theirs <->
  (forall i d x y, descs !! i = Some d -> is_valid d = true ->
     mine !! i = Some x -> theirs !! i = Some y -> eq_op x y = true).
Proof.
  intros Hlen Hbits. split.
  - intros Hm i d x y Hd Hv Hx Hy. apply (Hm i x y Hx Hy).
    by rewrite (Hbits i d Hd).
  - intros Hm j x y Hx Hy Hbit.
    destruct (lookup_lt_is_Some_2 descs j) as [d Hd].
    { rewrite <- Hlen. by apply lookup_lt_Some in Hy. }
    apply (Hm j d x y Hd); [| done | done].
    by rewrite <- (Hbits j d Hd).
Qed.

(** C8. On keys of identical shape, providers that disagree on
    [has_readconst] make [Equal] return [false].  Otherwise the comparator
    counts as the constructor did.  A comparison of a built candidate that
    falls through ends with the counter the construction ended with, which is
    0, plus one when the read-constant slot is present, plus one per tracked
    descriptor; the position at which the comparator gates each entry of a
    built candidate is the binding index the construction gave its
    descriptor; and between two built keys of identical shape within the
    capacity whose providers agree on [has_readconst], the bit the
    comparator reads for an entry is the one the construction of the cached
    key wrote for that entry's descriptor: [Equal] returns [true] exactly
    when the ungated fields agree and the entries of the descriptors that
    resolved in the cached key's provider are equal, and [false]
    otherwise. *)
Theorem readconst_mismatch_and_counter :
  (forall candidate cached : StageSpecialization,
     same_shape candidate cached ->
     Info_has_readconst (info candidate)
       <> Info_has_readconst (info cached) ->
     Equal candidate cached = Some false) /\
  (forall (info_ : Info) (rt : RuntimeInfo) (p : Profile) (s : Bindings)
          (b b' : N) (candidate cached : StageSpecialization),
     tracked_slots info_ < u32_max ->
     StageSpecialization_ctor_state info_ rt p s = Some (b, candidate) ->
     StageSpecialization_eq_state candidate cached = Next b' ->
     b' = b /\
     b = N.b2n (Info_has_readconst info_) +
         N.of_nat (length (Info_buffers info_)) +
         N.of_nat (length (Info_texture_buffers info_)) +
         N.of_nat (length (Info_images info_)) +
         N.of_nat (length (Info_fmasks info_))) /\
  (forall (info_ : Info) (rt : RuntimeInfo) (p : Profile) (s : Bindings)
          (candidate : StageSpecialization),
     Build info_ rt p s = Some candidate ->
     forall i : nat,
       buffer_slot candidate i = buffer_binding info_ i /\
       tex_buffer_slot candidate i = tex_buffer_binding info_ i /\
       image_slot candidate i = image_binding info_ i /\
       fmask_slot candidate i = fmask_binding info_ i) /\
  (forall (info_c info_k : Info) (rt_c rt_k : RuntimeInfo)
          (p_c p_k : Profile) (s_c s_k : Bindings)
          (candidate cached : StageSpecialization),
     Build info_c rt_c p_c s_c = Some candidate ->
     Build info_k rt_k p_k s_k = Some cached ->
     same_shape candidate cached ->
     tracked_slots info_c <= MaxStageResources ->
     Info_has_readconst info_c = Info_has_readconst info_k ->
     exists b : bool,
       Equal candidate cached = Some b /\
       (b = true <->
        start candidate = start cached /\
        runtime_info candidate = runtime_info cached /\
        fetch_shader_data candidate = fetch_shader_data cached /\
        entries_match VsAttribSpecialization_eq
          (vs_attribs candidate) (vs_attribs cached) /\
        (forall i d x y, Info_buffers info_k !! i = Some d ->
           Buffer_valid (BufferResource_GetSharp d info_k) = true ->
           buffers candidate !! i = Some x -> buffers cached !! i = Some y ->
           BufferSpecialization_eq x y = true) /\
        (forall i d x y, Info_texture_buffers info_k !! i = Some d ->
           Buffer_valid (TextureBufferResource_GetSharp d info_k) = true ->
           tex_buffers candidate !! i = Some x ->
           tex_buffers cached !! i = Some y ->
           TextureBufferSpecialization_eq x y = true) /\
        (forall i d x y, Info_images info_k !! i = Some d ->
           Image_valid (ImageResource_GetSharp d info_k) = true ->
           images candidate !! i = Some x -> images cached !! i = Some y ->
           ImageSpecialization_eq x y = true) /\
        (forall i d x y, Info_fmasks info_k !! i = Some d ->
           Image_valid (FMaskResource_GetSharp d info_k) = true ->
           fmasks candidate !! i = Some x -> fmasks cached !! i = Some y ->
           FMaskSpecialization_eq x y = true) /\
        entries_match SamplerSpecialization_eq
          (samplers candidate) (samplers cached))).
Proof.
  split; [| split; [| split]].
  - intros this other (Hvs & _) Hrc. by apply Equal_readconst_differs.
  - intros info_ rt p s b b' this other Hcap Hrun Hcmp.
    apply StageSpecialization_eq_state_Next in Hcmp as ->.
    assert (HA : StageSpecialization_ctor info_ rt p s = Some this).
    { unfold StageSpecialization_ctor. by rewrite Hrun. }
    rewrite (built_slots _ _ _ _ _ HA).
    apply StageSpecialization_ctor_state_Some in Hrun as (-> & _); [| done].
    split; reflexivity.
  - intros info_ rt p s this HA i. by apply (built_positions info_ rt p s).
  - intros info_c info_k rt_c rt_k p_c p_k s_c s_k this other
      HC HK Hshape Hcap Hrc.
    pose proof (StageSpecialization_ctor_entries _ _ _ _ _ HC)
      as (HiC & _).
    pose proof (StageSpecialization_ctor_entries _ _ _ _ _ HK)
      as (HiK & _ & _ & _ & Eb & Et & Ei & Ef & _).
    assert (Hrc' : Info_has_readconst (info this)
                   = Info_has_readconst (info other)) by by rewrite HiC, HiK.
    destruct (slot_positions_agree _ _ Hshape Hrc')
      as (Pb & Pt & Pi & Pf & Hs).
    assert (HcapC : slots this <= MaxStageResources)
      by by rewrite (built_slots _ _ _ _ _ HC).
    assert (HcapK : tracked_slots info_k < u32_max).
    { rewrite <- (built_slots _ _ _ _ _ HK), <- Hs.
      unfold u32_max, MaxStageResources in *. lia. }
    destruct (built_bitset _ _ _ _ _ HcapK HK) as (Bb & Bt & Bi & Bf & _).
    assert (Gb := slots_match_resolved BufferSpecialization_eq
      (bitset other) (buffer_slot this) (Info_buffers info_k)
      (fun d => Buffer_valid (BufferResource_GetSharp d info_k))
      (buffers this) (buffers other)).
    assert (Gt := slots_match_resolved TextureBufferSpecialization_eq
      (bitset other) (tex_buffer_slot this) (Info_texture_buffers info_k)
      (fun d => Buffer_valid (TextureBufferResource_GetSharp d info_k))
      (tex_buffers this) (tex_buffers other)).
    assert (Gi := slots_match_resolved ImageSpecialization_eq
      (bitset other) (image_slot this) (Info_images info_k)
      (fun d => Image_valid (ImageResource_GetSharp d info_k))
      (images this) (images other)).
    assert (Gf := slots_match_resolved FMaskSpecialization_eq
      (bitset other) (fmask_slot this) (Info_fmasks info_k)
      (fun d => Image_valid (FMaskResource_GetSharp d info_k))
      (fmasks this) (fmasks other)).
    cbv beta in Gb, Gt, Gi, Gf.
    specialize (Gb ltac:(by rewrite Eb, length_map)).
    specialize (Gt ltac:(by rewrite Et, length_map)).
    specialize (Gi ltac:(by rewrite Ei, length_map)).
    specialize (Gf ltac:(by rewrite Ef, length_map)).
    assert (Hb : forall i d, Info_buffers info_k !! i = Some d ->
      N.testbit (bitset other) (buffer_slot this i)
        = Buffer_valid (BufferResource_GetSharp d info_k)).
    { intros i d Hd. rewrite Pb.
      rewrite (proj1 (built_positions _ _ _ _ _ HK i)). by apply Bb. }
    assert (Ht : forall i d, Info_texture_buffers info_k !! i = Some d ->
      N.testbit (bitset other) (tex_buffer_slot this i)
        = Buffer_valid (TextureBufferResource_GetSharp d info_k)).
    { intros i d Hd. rewrite Pt.
      rewrite (proj1 (proj2 (built_positions _ _ _ _ _ HK i))).
      by apply Bt. }
    assert (Him : forall i d, Info_images info_k !! i = Some d ->
      N.testbit (bitset other) (image_slot this i)
        = Image_valid (ImageResource_GetSharp d info_k)).
    { intros i d Hd. rewrite Pi.
      rewrite (proj1 (proj2 (proj2 (built_positions _ _ _ _ _ HK i)))).
      by apply Bi. }
    assert (Hf : forall i d, Info_fmasks info_k !! i = Some d ->
      N.testbit (bitset other) (fmask_slot this i)
        = Image_valid (FMaskResource_GetSharp d info_k)).
    { intros i d Hd. rewrite Pf.
      rewrite (proj2 (proj2 (proj2 (built_positions _ _ _ _ _ HK i)))).
      by apply Bf. }
    specialize (Gb Hb). specialize (Gt Ht).
    specialize (Gi Him). specialize (Gf Hf).
    destruct (Equal_cases this other Hshape HcapC) as [[-> Hm] | [-> Hm]].
    + exists true. split; [done |]. split; [intros _ | done].
      unfold keys_match in Hm. tauto.
    + exists false. split; [done |]. split; [done | intros Hm'].
      destruct Hm. unfold keys_match. tauto.
Qed.

End CounterAgreement.

Lemma readconst_mismatch_and_counter_witness :
  Equal (demo_key (demo_provider true [] [] []))
        (demo_key (demo_provider false [] [] [])) = Some false /\
  (exists b b' : N,
     StageSpecialization_ctor_state demo_vertex_info 0 false 0
       = Some (b, demo_key demo_vertex_info) /\
     StageSpecialization_eq_state (demo_key demo_vertex_info)
       (demo_key demo_vertex_info) = Next b' /\
     b' = b /\ b = 8) /\
  bitset (demo_key (demo_readconst_provider 16)) = 2 /\
  Equal (demo_key (demo_readconst_provider 32))
        (demo_key (demo_readconst_provider 16)) = Some false.
Proof.
  destruct (@readconst_mismatch_and_counter _ _ demo_Runtime)
    as (Hflag & Hcount & _ & Hgate).
  split; [| split; [| split]].
  - apply Hflag; [by repeat split | by vm_compute].
  - exists 8, 8. split; [reflexivity |]. split; [reflexivity |].
    exact (Hcount demo_vertex_info 0 false 0 8 8 (demo_key demo_vertex_info)
             (demo_key demo_vertex_info) eq_refl eq_refl eq_refl).
  - reflexivity.
  - destruct (Hgate (demo_readconst_provider 32) (demo_readconst_provider 16)
                0 0 false false 0 0
                (demo_key (demo_readconst_provider 32))
                (demo_key (demo_readconst_provider 16))
                eq_refl eq_refl) as (b & Hb & Hiff);
      [by repeat split | by vm_compute | reflexivity |].
    destruct b; [| exact Hb].
    destruct (proj1 Hiff eq_refl) as (_ & _ & _ & _ & Hbuf & _).
    specialize (Hbuf 0%nat (demo_buffer true 16 1024 false) _ _
                  eq_refl eq_refl eq_refl eq_refl).
    discriminate Hbuf.
Defined.
